(** * run_glue.py: the multi-task training driver

    A shallow embedding of [src/transferprediction/run_glue.py]: the batch
    assembler [collate_func], the training loop [train] with gradient
    accumulation, checkpoint naming and resume, the evaluation driver
    [evaluate], the feature cache [load_and_cache_examples], the start of
    [main] and its end (saving the model, evaluating the checkpoints).

    Python values are modelled as follows.  Integers are [Z] (Python's [//]
    and [%] are [Z.div] and [Z.modulo], which round the same way, with the
    zero divisor raising).  Losses are Python floats in the source; they are
    modelled as rationals [Q], so a statement about a loss is a statement
    about the exact quotient.  Strings are [string].  Dictionaries and the
    file system are [gmap]s.  An exception is a value of [exn] carried by
    [Raise]. *)

From Stdlib Require Import ZArith QArith Lia Ascii String DecimalString DecimalN DecimalPos.
From stdpp Require Import base option list gmap strings sorting.

Local Open Scope Z_scope.

(** ** Python primitives *)

Module Py.

(** The exceptions the modelled code can raise. *)
Inductive exn : Type :=
  | ZeroDivisionError
  | IndexError
  | KeyError (key : string)
  | ValueError (msg : string)
  | AttributeError (msg : string)
  | NameError (name : string)
  | TypeError (msg : string)
  | NotADirectoryError (path : string)
  | Exception (msg : string)
  | SystemExit (code : Z).

Inductive result (A : Type) : Type :=
  | Ok (a : A)
  | Raise (e : exn).
Arguments Ok {A} a.
Arguments Raise {A} e.

#[global] Instance result_ret : MRet result := fun _ a => Ok a.
#[global] Instance result_bind : MBind result := fun _ _ f m =>
  match m with
  | Ok a => f a
  | Raise e => Raise e
  end.

Definition is_ok {A} (r : result A) : bool :=
  match r with Ok _ => true | Raise _ => false end.

(** [a // b] and [a % b] on integers. *)
Definition floordiv (a b : Z) : result Z :=
  if b =? 0 then Raise ZeroDivisionError else Ok (a / b).

Definition modulo (a b : Z) : result Z :=
  if b =? 0 then Raise ZeroDivisionError else Ok (a mod b).

(** [l[i]]: a negative index counts from the end; out of range raises. *)
Definition norm_index (len : nat) (i : Z) : result nat :=
  let n := Z.of_nat len in
  let j := if i <? 0 then i + n else i in
  if (0 <=? j) && (j <? n) then Ok (Z.to_nat j) else Raise IndexError.

Definition index {A} (l : list A) (i : Z) : result A :=
  j ← norm_index (length l) i;
  match l !! j with
  | Some x => Ok x
  | None => Raise IndexError
  end.

(** [s.split(sep)] for a one-character separator: never the empty list. *)
Fixpoint split (sep : ascii) (s : string) : list string :=
  match s with
  | EmptyString => [EmptyString]
  | String c s' =>
      if Ascii.eqb c sep then EmptyString :: split sep s'
      else match split sep s' with
           | [] => [String c EmptyString]
           | w :: ws => String c w :: ws
           end
  end.

(** [sub in s] on strings. *)
Fixpoint contains (sub s : string) : bool :=
  String.prefix sub s ||
  match s with
  | EmptyString => false
  | String _ s' => contains sub s'
  end.

(** [str(n)] of an integer: decimal digits, a leading [-] when negative. *)
Definition str (n : Z) : string := NilZero.string_of_int (Z.to_int n).

(** [int(s)] of a string: surrounding white space is dropped, then an
    optional sign, then decimal digits, where single underscores may stand
    between digits.  Anything else is a [ValueError]. *)
Definition is_space (c : ascii) : bool :=
  let n := nat_of_ascii c in
  ((9 <=? n) && (n <=? 13) || (28 <=? n) && (n <=? 32))%nat.

Fixpoint lstrip (s : string) : string :=
  match s with
  | String c s' => if is_space c then lstrip s' else s
  | EmptyString => EmptyString
  end.

Fixpoint rstrip (s : string) : string :=
  match s with
  | EmptyString => EmptyString
  | String c s' =>
      match rstrip s' with
      | EmptyString => if is_space c then EmptyString else String c EmptyString
      | r => String c r
      end
  end.

Definition strip (s : string) : string := rstrip (lstrip s).

Definition digit_of (c : ascii) : option Z :=
  let n := nat_of_ascii c in
  if ((48 <=? n) && (n <=? 57))%nat then Some (Z.of_nat n - 48) else None.

(** [after_digit] tells whether the previous character was a digit: an
    underscore is accepted only there, and the literal cannot end on one. *)
Fixpoint parse_digits (s : string) (acc : Z) (after_digit : bool) : option Z :=
  match s with
  | EmptyString => if after_digit then Some acc else None
  | String c s' =>
      match digit_of c with
      | Some d => parse_digits s' (10 * acc + d) true
      | None =>
          if Ascii.eqb c "_" && after_digit then parse_digits s' acc false
          else None
      end
  end.

Definition int (s : string) : result Z :=
  let invalid := ValueError ("invalid literal for int() with base 10: " +:+ s) in
  let parsed :=
    match strip s with
    | String "-" ds => Z.opp <$> parse_digits ds 0 false
    | String "+" ds => parse_digits ds 0 false
    | ds => parse_digits ds 0 false
    end in
  match parsed with
  | Some n => Ok n
  | None => Raise invalid
  end.

(** [os.path.join(a, b)] on POSIX paths. *)
Definition ends_with_slash (s : string) : bool :=
  match String.get (String.length s - 1) s with
  | Some c => Ascii.eqb c "/"
  | None => false
  end.

Definition path_join (a b : string) : string :=
  match b with
  | String "/" _ => b
  | _ =>
      match a with
      | EmptyString => b
      | _ => if ends_with_slash a then a +:+ b else a +:+ "/" +:+ b
      end
  end.

End Py.
Import Py.

Module RunGlue.


(** ** Data model *)

(** What the tokenizer backend produces for one example
    ([InputFeatures]): three equally long integer sequences and a label
    (a class index, or the regression target). *)
Record input_features : Type := {
  f_input_ids : list Z;
  f_attention_mask : list Z;
  f_token_type_ids : list Z;
  f_label : Q;
}.

(** One element of the multi-task training set: the four tensors of the
    example followed by the index of its task; [instance[-1]] in the source
    is [task_index]. *)
Record instance : Type := {
  input_ids : list Z;
  attention_mask : list Z;
  token_type_ids : list Z;
  label : Q;
  task_index : Z;
}.

(** The value of [torch.utils.data.dataloader.default_collate] on a list of
    instances: one stacked tensor per field, rows in the order of the list. *)
Record collated : Type := {
  c_input_ids : list (list Z);
  c_attention_mask : list (list Z);
  c_token_type_ids : list (list Z);
  c_labels : list Q;
  c_task_index : list Z;
}.

(** The stacked fields of a list of instances. *)
Definition stack_fields (batch : list instance) : collated :=
  {| c_input_ids := input_ids <$> batch;
     c_attention_mask := attention_mask <$> batch;
     c_token_type_ids := token_type_ids <$> batch;
     c_labels := label <$> batch;
     c_task_index := task_index <$> batch |}.

(** [default_collate] reads [batch[0]] first, so the empty list raises. *)
Definition default_collate (batch : list instance) : result collated :=
  match batch with
  | [] => Raise IndexError
  | _ => Ok (stack_fields batch)
  end.

(** The parsed command line, with the fields [main] adds to it. *)
Record args : Type := {
  data_dir_list : list string;
  task_names : list string;
  task_list : list string;
  num_label_list : list Z;
  model_type : string;
  model_name_or_path : string;
  output_dir : string;
  max_seq_length : Z;
  do_train : bool;
  do_eval : bool;
  gradient_accumulation_steps : Z;
  num_train_epochs : Q;
  max_steps : Z;
  n_gpu : Z;
  fp16 : bool;
  local_rank : Z;
  overwrite_output_dir : bool;
  overwrite_cache : bool;
  sampling_type : string;
  batch_type : string;
  short : bool;
  start_again : bool;
  per_gpu_eval_batch_size : Z;
}.

(** ** The file system *)

(** A path is taken literally (no normalisation); a file holds cached
    features when it is a feature cache, and is opaque otherwise. *)
Inductive node : Type :=
  | Dir
  | File (cached : option (list input_features)).

Abbreviation filesystem := (gmap string node).

Definition path_exists (fs : filesystem) (p : string) : bool :=
  bool_decide (is_Some (fs !! p)).

Definition isfile (fs : filesystem) (p : string) : bool :=
  match fs !! p with
  | Some (File _) => true
  | _ => false
  end.

Definition isdir (fs : filesystem) (p : string) : bool :=
  match fs !! p with
  | Some Dir => true
  | _ => false
  end.

Fixpoint strip_prefix (p s : string) : option string :=
  match p, s with
  | EmptyString, _ => Some s
  | String a p', String b s' => if Ascii.eqb a b then strip_prefix p' s' else None
  | String _ _, EmptyString => None
  end.

(** The entry of directory [d] that path [p] is, if it is one. *)
Definition entry_of (d p : string) : option string :=
  let d' := if ends_with_slash d then d else d +:+ "/" in
  match strip_prefix d' p with
  | Some name =>
      if negb (contains "/" name) && negb (String.eqb name "") then Some name
      else None
  | None => None
  end.

(** [os.listdir(d)], in no particular order; [d] must be a directory. *)
Definition listdir (fs : filesystem) (d : string) : result (list string) :=
  match fs !! d with
  | Some (File _) => Raise (NotADirectoryError d)
  | _ => Ok (omap (λ kv, entry_of d kv.1) (map_to_list fs))
  end.

(** ** The batch assembler: [collate_func] inside [train] *)

(** The loop [for instance in batch: batches_by_task[instance[-1]].append(instance)].
    The task index is used as a Python list index. *)
Fixpoint group_by_task (batch : list instance)
    (batches_by_task : list (list instance)) : result (list (list instance)) :=
  match batch with
  | [] => Ok batches_by_task
  | inst :: rest =>
      cur_index ← norm_index (length batches_by_task) (task_index inst);
      group_by_task rest (alter (λ g, g ++ [inst]) cur_index batches_by_task)
  end.

Definition collate_func (a : args) (batch : list instance) : result (list collated) :=
  batches_by_task ← group_by_task batch (replicate (length (data_dir_list a)) []);
  let batch_lens := length <$> batches_by_task in
  if (sum_list batch_lens =? 0)%nat then Raise (Exception "Empty task lists")
  else
    let batches_by_task :=
      if bool_decide (0%nat ∈ batch_lens)
      then filter (λ cur_batch, length cur_batch ≠ 0%nat) batches_by_task
      else batches_by_task in
    mapM default_collate batches_by_task.

(** The dense data loader's [collate_fn]: [lambda x: [default_collate(x)]]. *)
Definition dense_collate (batch : list instance) : result (list collated) :=
  c ← default_collate batch; Ok [c].

(** [train] builds the dense loader when the output directory's name
    contains [dnc] or [size_experiment], and the split loader otherwise. *)
Definition use_dense_dataloader (a : args) : bool :=
  contains "dnc" (output_dir a) || contains "size_experiment" (output_dir a).

Definition collate_fn (a : args) (batch : list instance) : result (list collated) :=
  if use_dense_dataloader a then dense_collate batch else collate_func a batch.

(** The training data loader: its declared length [len(train_dataloader)]
    and the raw batches its sampler hands to [collate_fn] in each epoch. *)
Record dataloader : Type := {
  dl_len : Z;
  dl_batches : Z → list (list instance);
}.

(** ** Checkpoints: [save_model] *)

(** What [train] does to the model, the optimizer, the scheduler and its
    iterators, in the order it does it. *)
Inductive event : Type :=
  | Backward (loss : Q)
  | ClipGradNorm
  | OptimizerStep
  | SchedulerStep
  | ZeroGrad
  | SavePretrained (dir : string)
  | LoadOptimizerScheduler (dir : string)
  | WriteLossValues (epoch : Z)
  | Evaluate
  | CloseInEpochIterator
  | CloseTrainIterator.

(** The events that are optimizer updates, and how many a trace holds. *)
Definition is_optimizer_step (e : event) : bool :=
  match e with OptimizerStep => true | _ => false end.

Definition count_events (p : event → bool) (tr : list event) : Z :=
  Z.of_nat (length (List.filter p tr)).

(** The variables of [train] that change in its loops, with the trace of
    its effects and the file system. *)
Record train_state : Type := {
  global_step : Z;
  steps_trained_in_current_epoch : Z;
  tr_loss : Q;
  all_losses : list Q;
  num_instances : Z;
  trace : list event;
  files : filesystem;
}.

(** The directory of the checkpoint taken at [global_step]:
    [os.path.join(args.output_dir, "checkpoint-{}".format(global_step))]. *)
Definition checkpoint_dir (a : args) (global_step : Z) : string :=
  path_join (output_dir a) ("checkpoint-" +:+ str global_step).

(** [os.makedirs(d)]; the parents of [d] are not tracked. *)
Definition makedirs (fs : filesystem) (d : string) : filesystem := <[d := Dir]> fs.

(** [save_model]: the directory is made if it is not there, the model and
    the tokenizer are saved into it (one event), and the arguments, the
    optimizer state and the scheduler state are written. *)
Definition save_model (a : args) (st : train_state) : train_state :=
  let output_dir := checkpoint_dir a (global_step st) in
  let fs := files st in
  let fs := if path_exists fs output_dir then fs else makedirs fs output_dir in
  let fs := <[path_join output_dir "training_args.bin" := File None]> fs in
  let fs := <[path_join output_dir "optimizer.pt" := File None]> fs in
  let fs := <[path_join output_dir "scheduler.pt" := File None]> fs in
  {| global_step := global_step st;
     steps_trained_in_current_epoch := steps_trained_in_current_epoch st;
     tr_loss := tr_loss st;
     all_losses := all_losses st;
     num_instances := num_instances st;
     trace := trace st ++ [SavePretrained output_dir];
     files := fs |}.

(** ** Resuming: the start of [train] *)

(** [global_step], [epochs_trained] and [steps_trained_in_current_epoch] as
    [train] sets them before its loops. *)
Definition resume (a : args) (fs : filesystem) (len_dataloader : Z) : result (Z * Z * Z) :=
  if path_exists fs (model_name_or_path a) && negb (start_again a) then
    last ← index (split "-" (model_name_or_path a)) (-1);
    first ← index (split "/" last) 0;
    global_step ← int first;
    steps_per_epoch ← floordiv len_dataloader (gradient_accumulation_steps a);
    epochs_trained ← floordiv global_step steps_per_epoch;
    steps_per_epoch ← floordiv len_dataloader (gradient_accumulation_steps a);
    steps_trained_in_current_epoch ← modulo global_step steps_per_epoch;
    Ok (global_step, epochs_trained, steps_trained_in_current_epoch)
  else Ok (0, 0, 0).

(** ** The training loop: [train] *)

(** Updates of single parts of the state. *)
Definition add_event (st : train_state) (e : event) : train_state :=
  {| global_step := global_step st;
     steps_trained_in_current_epoch := steps_trained_in_current_epoch st;
     tr_loss := tr_loss st;
     all_losses := all_losses st;
     num_instances := num_instances st;
     trace := trace st ++ [e];
     files := files st |}.

Definition set_steps_to_skip (st : train_state) (n : Z) : train_state :=
  {| global_step := global_step st;
     steps_trained_in_current_epoch := n;
     tr_loss := tr_loss st;
     all_losses := all_losses st;
     num_instances := num_instances st;
     trace := trace st;
     files := files st |}.

Definition set_all_losses (st : train_state) (l : list Q) : train_state :=
  {| global_step := global_step st;
     steps_trained_in_current_epoch := steps_trained_in_current_epoch st;
     tr_loss := tr_loss st;
     all_losses := l;
     num_instances := num_instances st;
     trace := trace st;
     files := files st |}.

(** The gradient clipping, the update and what goes with it: the body of
    [if (step + 1) % args.gradient_accumulation_steps == 0] (with [fp16]
    off; with it on the step has already failed). *)
Definition optimizer_update (st : train_state) (loss : Q) : train_state :=
  {| global_step := global_step st + 1;
     steps_trained_in_current_epoch := steps_trained_in_current_epoch st;
     tr_loss := tr_loss st;
     all_losses := all_losses st ++ [loss];
     num_instances := num_instances st;
     trace := trace st ++ [ClipGradNorm; OptimizerStep; SchedulerStep; ZeroGrad];
     files := files st |}.

(** [loss.backward()] followed by [tr_loss += loss.item()]. *)
Definition backward (st : train_state) (loss : Q) : train_state :=
  {| global_step := global_step st;
     steps_trained_in_current_epoch := steps_trained_in_current_epoch st;
     tr_loss := (tr_loss st + loss)%Q;
     all_losses := all_losses st;
     num_instances := num_instances st;
     trace := trace st ++ [Backward loss];
     files := files st |}.

Definition add_instances (st : train_state) (n : Z) : train_state :=
  {| global_step := global_step st;
     steps_trained_in_current_epoch := steps_trained_in_current_epoch st;
     tr_loss := tr_loss st;
     all_losses := all_losses st;
     num_instances := num_instances st + n;
     trace := trace st;
     files := files st |}.

(** [if args.max_steps > 0 and global_step > args.max_steps]. *)
Definition past_max_steps (a : args) (global_step : Z) : bool :=
  (max_steps a >? 0) && (global_step >? max_steps a).

(** [int(x)] of a float: truncation towards zero. *)
Definition int_of_float (x : Q) : Z := Z.quot (Qnum x) (Z.pos (Qden x)).

Section Train.

(** The model backend: the loss [outputs[0]] of a sub-batch, given
    everything done to the model so far and [model.num_labels]. *)
Variable model_loss : list event → Z → collated → Q.

(** [list(set(l))]: the order in which CPython iterates over a set is not
    specified, so it is left open. *)
Variable set_to_list : list Z → list Z.

(** [model.num_labels = args.num_label_list[all_tasks_in_batch[0]]]. *)
Definition select_num_labels (a : args) (b : collated) : result Z :=
  first_task ← index (set_to_list (c_task_index b)) 0;
  index (num_label_list a) first_task.

(** One turn of [for batch_with_task in batch_all].  With more than one GPU
    the source calls [loss.mean()] before [loss] holds a sub-batch's loss. *)
Definition forward_sub_batch (a : args) (st : train_state) (loss : option Q)
    (b : collated) : result (train_state * option Q) :=
  num_labels ← select_num_labels a b;
  let st := add_instances st (Z.of_nat (length (c_input_ids b))) in
  let sub_loss := model_loss (trace st) num_labels b in
  loss ← (if n_gpu a >? 1 then
            match loss with
            | Some l => Ok (Some l)
            | None => Raise (AttributeError "'NoneType' object has no attribute 'mean'")
            end
          else Ok loss);
  Ok (st, Some (match loss with
                | None => sub_loss
                | Some l => (l + sub_loss)%Q
                end)).

Fixpoint forward_batch (a : args) (st : train_state) (loss : option Q)
    (batch_all : list collated) : result (train_state * option Q) :=
  match batch_all with
  | [] => Ok (st, loss)
  | b :: rest =>
      '(st, loss) ← forward_sub_batch a st loss b;
      forward_batch a st loss rest
  end.

(** The rest of the step: scaling the loss, [backward], and the update
    every [gradient_accumulation_steps] steps.  [amp] is not imported, so
    [fp16] fails with a [NameError]. *)
Definition accumulate (a : args) (step : Z) (st : train_state)
    (loss : option Q) : result train_state :=
  let n := gradient_accumulation_steps a in
  loss ← (if n >? 1 then
            match loss with
            | Some l => Ok (Some (l / inject_Z n)%Q)
            | None => Raise (TypeError "unsupported operand type(s) for /: 'NoneType' and 'int'")
            end
          else Ok loss);
  if fp16 a then Raise (NameError "amp")
  else
    match loss with
    | None => Raise (AttributeError "'NoneType' object has no attribute 'backward'")
    | Some l =>
        let st := backward st l in
        r ← modulo (step + 1) n;
        if r =? 0 then Ok (optimizer_update st l) else Ok st
    end.

(** The body of the in-epoch loop for a step that is not skipped, up to the
    [max_steps] test. *)
Definition train_step (a : args) (step : Z) (batch_all : list collated)
    (st : train_state) : result train_state :=
  '(st, loss) ← forward_batch a st None batch_all;
  accumulate a step st loss.

(** [for step, batch_all in enumerate(in_epoch_iterator)]: the loader
    collates the next raw batch, then the body runs. *)
Fixpoint epoch_loop (a : args) (half_of_batch : Z) (step : Z)
    (batches : list (list instance)) (st : train_state) : result train_state :=
  match batches with
  | [] => Ok st
  | raw :: rest =>
      batch_all ← collate_fn a raw;
      if steps_trained_in_current_epoch st >? 0 then
        epoch_loop a half_of_batch (step + 1) rest
          (set_steps_to_skip st (steps_trained_in_current_epoch st - 1))
      else
        let st := if step =? half_of_batch then save_model a st else st in
        st ← train_step a step batch_all st;
        if past_max_steps a (global_step st) then Ok (add_event st CloseInEpochIterator)
        else epoch_loop a half_of_batch (step + 1) rest st
  end.

Definition in_first_process (a : args) : bool :=
  (local_rank a =? -1) || (local_rank a =? 0).

(** The end of an epoch in the first process: the loss log, then the
    checkpoint. *)
Definition end_of_epoch (a : args) (epoch : Z) (st : train_state) : train_state :=
  let st := set_all_losses st [] in
  let st :=
    {| global_step := global_step st;
       steps_trained_in_current_epoch := steps_trained_in_current_epoch st;
       tr_loss := tr_loss st;
       all_losses := all_losses st;
       num_instances := num_instances st;
       trace := trace st ++ [WriteLossValues epoch];
       files := <[path_join (output_dir a) "loss_values.txt" := File None]> (files st) |} in
  save_model a st.

(** [for epoch in train_iterator].  Under dynamic sampling the epoch starts
    with an evaluation whose results go to the sampler; it is kept as an
    event. *)
Fixpoint train_loop (a : args) (dl : dataloader) (epochs : list Z)
    (st : train_state) : result train_state :=
  match epochs with
  | [] => Ok st
  | epoch :: rest =>
      let st := if String.eqb (sampling_type a) "dynamic" then add_event st Evaluate else st in
      let st := set_all_losses (add_event st ZeroGrad) [] in
      st ← epoch_loop a (dl_len dl / 2) 0 (dl_batches dl epoch) st;
      let st := if in_first_process a then end_of_epoch a epoch st else st in
      if past_max_steps a (global_step st) then Ok (add_event st CloseTrainIterator)
      else train_loop a dl rest st
  end.

(** [t_total] and the number of epochs. *)
Definition plan_epochs (a : args) (dl : dataloader) : result (Q * Q) :=
  if max_steps a >? 0 then
    steps_per_epoch ← floordiv (dl_len dl) (gradient_accumulation_steps a);
    q ← floordiv (max_steps a) steps_per_epoch;
    Ok (inject_Z (max_steps a), inject_Z (q + 1))
  else
    steps_per_epoch ← floordiv (dl_len dl) (gradient_accumulation_steps a);
    Ok ((inject_Z steps_per_epoch * num_train_epochs a)%Q, num_train_epochs a).

(** The state in which the loops start. *)
Definition initial_state (a : args) (fs : filesystem) (global_step skip : Z) : train_state :=
  let mp := model_name_or_path a in
  let loaded :=
    if isfile fs (path_join mp "optimizer.pt") && isfile fs (path_join mp "scheduler.pt")
       && negb (start_again a)
    then [LoadOptimizerScheduler mp] else [] in
  {| global_step := global_step;
     steps_trained_in_current_epoch := skip;
     tr_loss := 0%Q;
     all_losses := [];
     num_instances := 0;
     trace := loaded ++ [ZeroGrad];
     files := if isdir fs (output_dir a) then fs else makedirs fs (output_dir a) |}.

(** [train] up to its [return]: the state the loops end in. *)
Definition train_loops (a : args) (dl : dataloader) (fs : filesystem) : result train_state :=
  '(_, num_train_epochs) ← plan_epochs a dl;
  '(global_step, epochs_trained, skip) ← resume a fs (dl_len dl);
  train_loop a dl
    (seqZ epochs_trained (int_of_float num_train_epochs - epochs_trained))
    (initial_state a fs global_step skip).

(** [return global_step, tr_loss / global_step]. *)
Definition train_return (st : train_state) : result (Z * Q) :=
  if global_step st =? 0 then Raise ZeroDivisionError
  else Ok (global_step st, (tr_loss st / inject_Z (global_step st))%Q).

Definition train (a : args) (dl : dataloader) (fs : filesystem) : result (Z * Q) :=
  st ← train_loops a dl fs;
  train_return st.

End Train.

(** ** The feature cache: [load_and_cache_examples] *)

(** A raw example as a task's processor reads it from the data directory. *)
Record input_example : Type := {
  guid : string;
  text_a : string;
  text_b : option string;
  example_label : string;
}.

(** A task's data processor, from [utils.processors]. *)
Record processor : Type := {
  get_labels : list string;
  get_train_examples : string → result (list input_example);
  get_dev_examples : string → result (list input_example);
}.

(** [s[:-1]]. *)
Fixpoint drop_last (s : string) : string :=
  match s with
  | EmptyString => EmptyString
  | String c EmptyString => EmptyString
  | String c s' => String c (drop_last s')
  end.

(** [s.replace(pat, "")] for a non-empty [pat]; [skip] counts the characters
    of a match that are still to be dropped. *)
Fixpoint remove_all_from (pat s : string) (skip : nat) : string :=
  match s with
  | EmptyString => EmptyString
  | String c s' =>
      match skip with
      | S k => remove_all_from pat s' k
      | O =>
          if String.prefix pat s then remove_all_from pat s' (String.length pat - 1)
          else String c (remove_all_from pat s' 0)
      end
  end.

Definition remove_all (pat s : string) : string := remove_all_from pat s 0.

(** [l.index(x)]: the first position of [x], or a [ValueError]. *)
Fixpoint list_index_from (x : string) (l : list string) (i : Z) : result Z :=
  match l with
  | [] => Raise (ValueError (x +:+ " is not in list"))
  | y :: l' => if String.eqb x y then Ok i else list_index_from x l' (i + 1)
  end.

Definition list_index (x : string) (l : list string) : result Z := list_index_from x l 0.

(** [torch.load] of a path: only a feature cache unpickles to features. *)
Definition torch_load (fs : filesystem) (p : string) : result (list input_features) :=
  match fs !! p with
  | Some (File (Some features)) => Ok features
  | _ => Raise (Exception ("cannot load " +:+ p))
  end.

Definition is_known_output_mode (m : string) : bool :=
  String.eqb m "classification" || String.eqb m "regression".

Section Backend.

(** The tables of [utils]: a processor and an output mode per task name. *)
Variable processors : gmap string processor.
Variable output_modes : gmap string string.

(** The tokenizer backend [glue_convert_examples_to_features]: examples,
    label list, maximal length, output mode and model type (which fixes the
    padding) to features; it may fail. *)
Variable convert_examples_to_features :
  list input_example → list string → Z → string → string → result (list input_features).

(** The [try]/[except] at the top: the task's own entries, or those of the
    task name without its last character. *)
Definition lookup_task (task : string) : result (processor * string) :=
  match processors !! task, output_modes !! task with
  | Some p, Some m => Ok (p, m)
  | _, _ =>
      let t := drop_last task in
      match processors !! t with
      | None => Raise (KeyError t)
      | Some p =>
          match output_modes !! t with
          | None => Raise (KeyError t)
          | Some m => Ok (p, m)
          end
      end
  end.

(** The cache file's name: split, last non-empty component of the model
    path, maximal sequence length, task. *)
Definition cached_features_file (a : args) (task data_dir : string)
    (evaluate : bool) : result string :=
  model_id ← index (List.filter (λ s, negb (String.eqb s "")) (split "/" (model_name_or_path a))) (-1);
  Ok (path_join data_dir
        ("cached_" +:+ (if evaluate then "dev" else "train") +:+ "_" +:+ model_id
         +:+ "_" +:+ str (max_seq_length a) +:+ "_" +:+ task)).

(** [label_list[1], label_list[2] = label_list[2], label_list[1]]. *)
Definition swap_labels (label_list : list string) : result (list string) :=
  l2 ← index label_list 2;
  l1 ← index label_list 1;
  Ok (<[2%nat := l1]> (<[1%nat := l2]> label_list)).

(** The features of the [else] branch, made anew from the source examples. *)
Definition make_features (a : args) (p : processor)
    (output_mode task data_dir : string) (evaluate shorten : bool)
    : result (list input_features) :=
  let label_list := get_labels p in
  label_list ←
    (if (String.eqb task "mnli" || String.eqb task "mnli-mm")
        && (String.eqb (model_type a) "roberta" || String.eqb (model_type a) "xlmroberta")
     then swap_labels label_list else Ok label_list);
  examples ← (if evaluate then get_dev_examples p data_dir else get_train_examples p data_dir);
  convert_examples_to_features
    (if shorten then take 2 examples else examples)
    label_list (max_seq_length a) output_mode (model_type a).

(** The [else] branch: the features are made, and the first process writes
    them to the cache file. *)
Definition create_features (a : args) (fs : filesystem) (p : processor)
    (output_mode task data_dir cached_file : string) (evaluate shorten : bool)
    : result (list input_features * filesystem) :=
  features ← make_features a p output_mode task data_dir evaluate shorten;
  Ok (features,
      if in_first_process a then <[cached_file := File (Some features)]> fs else fs).

(** [load_and_cache_examples] up to the tensors it builds from the
    features.  The barriers of a distributed run only order the processes
    and are left out. *)
Definition load_and_cache_examples (a : args) (fs : filesystem) (task data_dir : string)
    (evaluate shorten : bool) : result (list input_features * filesystem) :=
  '(p, output_mode) ← lookup_task task;
  cached_file ← cached_features_file a task data_dir evaluate;
  '(features, fs) ←
    (if path_exists fs cached_file && negb (overwrite_cache a) then
       features ← torch_load fs cached_file; Ok (features, fs)
     else create_features a fs p output_mode task data_dir cached_file evaluate shorten);
  if is_known_output_mode output_mode then Ok (features, fs)
  else Raise (NameError "all_labels").

(** ** Evaluation: [evaluate] *)

(** Inference over a held-out set followed by [compute_metrics]: task name,
    [model.num_labels] and the set to the task's metrics. *)
Variable eval_metrics : string → Z → list input_features → result (gmap string Q).

Definition eval_task_names (task_name : string) : list string :=
  if String.eqb task_name "mnli" then ["mnli"%string] else [task_name].

Definition eval_outputs_dirs (a : args) (task_name : string) : list string :=
  if String.eqb task_name "mnli" then [output_dir a; output_dir a +:+ "-MM"]
  else [output_dir a].

(** One evaluation pass, as it is observed: the task name it ran under, the
    directory it reported to and the label cardinality it set. *)
Record eval_pass : Type := {
  pass_task : string;
  pass_output_dir : string;
  pass_num_labels : Z;
}.

Record eval_state : Type := {
  full_results : gmap string (gmap string Q);
  eval_files : filesystem;
  passes : list eval_pass;
  (** the loop variable [eval_task], which outlives the inner loop *)
  eval_task_var : option string;
}.

(** The body of the inner loop, for the pair [(eval_task, eval_output_dir)]. *)
Definition evaluate_one (a : args) (prefix : string) (eval_task_index : Z)
    (eval_task eval_output_dir : string) (results : gmap string Q) (st : eval_state)
    : result (gmap string Q * eval_state) :=
  output_mode ← (match output_modes !! eval_task with
                 | Some m => Ok m
                 | None => Raise (KeyError eval_task)
                 end);
  task ← index (task_list a) eval_task_index;
  data_dir ← index (data_dir_list a) eval_task_index;
  '(eval_dataset, fs) ← load_and_cache_examples a (eval_files st) task data_dir true (short a);
  let fs := if negb (path_exists fs eval_output_dir) && in_first_process a
            then makedirs fs eval_output_dir else fs in
  let eval_batch_size := per_gpu_eval_batch_size a * Z.max 1 (n_gpu a) in
  if eval_batch_size <=? 0 then Raise (ValueError "batch_size should be a positive integer value")
  else
    match eval_dataset with
    | [] => Raise ZeroDivisionError
    | _ =>
        task_pos ← list_index (remove_all "-mm" eval_task) (task_names a);
        num_labels ← index (num_label_list a) task_pos;
        result ← eval_metrics eval_task num_labels eval_dataset;
        let report_dir := path_join eval_output_dir prefix in
        let fs := if isdir fs report_dir then fs else makedirs fs report_dir in
        let fs := <[path_join report_dir "eval_results.txt" := File None]> fs in
        Ok (result ∪ results,
            {| full_results := full_results st;
               eval_files := fs;
               passes := passes st ++ [{| pass_task := eval_task;
                                          pass_output_dir := eval_output_dir;
                                          pass_num_labels := num_labels |}];
               eval_task_var := Some eval_task |})
    end.

(** [for index, (eval_task, eval_output_dir) in enumerate(zip(...))]. *)
Fixpoint evaluate_pairs (a : args) (prefix : string) (eval_task_index : Z)
    (pairs : list (string * string)) (results : gmap string Q) (st : eval_state)
    : result (gmap string Q * eval_state) :=
  match pairs with
  | [] => Ok (results, st)
  | (eval_task, eval_output_dir) :: rest =>
      '(results, st) ← evaluate_one a prefix eval_task_index eval_task eval_output_dir results st;
      evaluate_pairs a prefix eval_task_index rest results st
  end.

(** The outer loop over the configured tasks; [full_results[eval_task] = results]
    after each inner loop. *)
Fixpoint evaluate_tasks (a : args) (prefix : string) (eval_task_index : Z)
    (tasks : list string) (st : eval_state) : result eval_state :=
  match tasks with
  | [] => Ok st
  | task_name :: rest =>
      '(results, st) ←
        evaluate_pairs a prefix eval_task_index
          (zip (eval_task_names task_name) (eval_outputs_dirs a task_name)) ∅ st;
      match eval_task_var st with
      | None => Raise (NameError "eval_task")
      | Some eval_task =>
          evaluate_tasks a prefix (eval_task_index + 1) rest
            {| full_results := <[eval_task := results]> (full_results st);
               eval_files := eval_files st;
               passes := passes st;
               eval_task_var := eval_task_var st |}
      end
  end.

Definition evaluate (a : args) (fs : filesystem) (prefix : string) : result eval_state :=
  evaluate_tasks a prefix 0 (task_names a)
    {| full_results := ∅; eval_files := fs; passes := []; eval_task_var := None |}.

End Backend.

(** ** The start of [main] *)




(** [for task_name in args.task_names: if task_name not in processors: raise]. *)
Fixpoint check_task_names (known : gmap string processor) (names : list string) : result unit :=
  match names with
  | [] => Ok ()
  | task_name :: rest =>
      match known !! task_name with
      | None => Raise (ValueError ("Task not found: " +:+ task_name))
      | Some _ => check_task_names known rest
      end
  end.

(** [main] from the parsed arguments to the point where it loads the
    model: the populated-output-directory check, the already-finished
    guard, and the task names.  [Ok ()] means that [main] goes on to load
    the model, train and evaluate. *)
Definition main_startup (known : gmap string processor) (a : args) (fs : filesystem)
    : result unit :=
  entries ← (if path_exists fs (output_dir a) then listdir fs (output_dir a) else Ok []);
  if path_exists fs (output_dir a)
     && negb (bool_decide (entries = []))
     && do_train a && negb (overwrite_output_dir a)
  then Raise (ValueError ("Output directory (" +:+ output_dir a
         +:+ ") already exists and is not empty. Use --overwrite_output_dir to overcome."))
  else if isfile fs (path_join (output_dir a) "results.csv") then Raise (SystemExit 0)
  else check_task_names known (task_names a).

(** The file [main] writes when it is done. *)
Definition results_file (a : args) : string := path_join (output_dir a) "results.json".

(** ** The end of [main]: saving and evaluating *)

(** What [main] writes into the output directory after training: the
    directory is made if needed, the model and the tokenizer are saved
    into it and the arguments are written beside them.  [rank] is the
    value of [torch.distributed.get_rank()], read only when [local_rank]
    is not [-1]. *)
Definition main_save (a : args) (rank : Z) (fs : filesystem) : filesystem :=
  if do_train a && ((local_rank a =? -1) || (rank =? 0)) then
    let fs := if negb (path_exists fs (output_dir a)) && in_first_process a
              then makedirs fs (output_dir a) else fs in
    <[path_join (output_dir a) "training_args.bin" := File None]> fs
  else fs.

(** [checkpoint.split("-")[-1] if len(checkpoints) > 1 else ""]. *)
Definition checkpoint_global_step (checkpoints : list string) (checkpoint : string)
    : result string :=
  if 1 <? Z.of_nat (length checkpoints) then index (split "-" checkpoint) (-1) else Ok ""%string.

(** [checkpoint.split("/")[-1] if checkpoint.find("checkpoint") != -1 else ""]. *)
Definition checkpoint_prefix (checkpoint : string) : result string :=
  if contains "checkpoint" checkpoint then index (split "/" checkpoint) (-1) else Ok ""%string.

(** [dict((k + "_{}".format(global_step), v) for k, v in result.items())]. *)
Definition suffix_keys {V} (global_step : string) (result : gmap string V) : gmap string V :=
  kmap (λ k, k +:+ "_" +:+ global_step) result.

Section MainEvaluate.

Variable processors : gmap string processor.
Variable output_modes : gmap string string.
Variable convert_examples_to_features :
  list input_example → list string → Z → string → string → result (list input_features).
(** The metrics of the model loaded from a checkpoint, on a task's
    features. *)
Variable checkpoint_metrics : string → string → Z → list input_features → result (gmap string Q).

(** The loop over the checkpoints; [results.update(result)] lets the later
    checkpoint win on a shared key. *)
Fixpoint evaluate_checkpoints (a : args) (checkpoints todo : list string)
    (results : gmap string (gmap string Q)) (fs : filesystem)
    : result (gmap string (gmap string Q) * filesystem) :=
  match todo with
  | [] => Ok (results, fs)
  | checkpoint :: rest =>
      global_step ← checkpoint_global_step checkpoints checkpoint;
      prefix ← checkpoint_prefix checkpoint;
      st ← evaluate processors output_modes convert_examples_to_features
             (checkpoint_metrics checkpoint) a fs prefix;
      evaluate_checkpoints a checkpoints rest
        (suffix_keys global_step (full_results st) ∪ results) (eval_files st)
  end.

(** The evaluation part of [main], which yields the results [main] returns;
    [checkpoints] is the list of checkpoints to evaluate (the output
    directory alone unless all checkpoints were asked for). *)
Definition main_evaluate (a : args) (checkpoints : list string) (fs : filesystem)
    : result (gmap string (gmap string Q) * filesystem) :=
  if do_eval a && in_first_process a
  then evaluate_checkpoints a checkpoints checkpoints ∅ fs
  else Ok (∅, fs).

End MainEvaluate.

(** ** Notions used in the statements *)

(** The instances of task [t] in a raw batch, in the order of the batch. *)
Definition instances_of_task (batch : list instance) (t : nat) : list instance :=
  filter (λ i, task_index i = Z.of_nat t) batch.

(** The task of a sub-batch: that of its first row. *)
Definition sub_batch_task (b : collated) : option Z := head (c_task_index b).

(** The tasks of a raw batch in the order in which they first appear in it. *)
Fixpoint order_of_appearance (seen : list Z) (batch : list instance) : list Z :=
  match batch with
  | [] => []
  | inst :: rest =>
      if bool_decide (task_index inst ∈ seen) then order_of_appearance seen rest
      else task_index inst :: order_of_appearance (task_index inst :: seen) rest
  end.

(** The test [(step + 1) % args.gradient_accumulation_steps == 0]. *)
Definition is_update_step (a : args) (step : Z) : bool :=
  (step + 1) mod gradient_accumulation_steps a =? 0.

(** The sum of a list of losses. *)
Definition sum_Q (l : list Q) : Q := foldr Qplus 0%Q l.

(** The losses of the sub-batches of one step, for the model as it is after
    [tr]. *)
Definition sub_losses (model_loss : list event → Z → collated → Q)
    (set_to_list : list Z → list Z) (a : args) (tr : list event)
    (batch_all : list collated) : list Q :=
  omap (λ b, match select_num_labels set_to_list a b with
             | Ok num_labels => Some (model_loss tr num_labels b)
             | Raise _ => None
             end) batch_all.

(** The events of one optimizer update. *)
Definition update_events : list event :=
  [ClipGradNorm; OptimizerStep; SchedulerStep; ZeroGrad].

(** The running sum [loss = sub_loss if loss is None else loss + sub_loss]. *)
Definition fold_loss (loss : option Q) (ls : list Q) : option Q :=
  foldl (λ acc l, Some (match acc with None => l | Some x => (x + l)%Q end)) loss ls.

(** The end of a step that ran [backward]: the update, on an update step. *)
Definition finish_step (a : args) (step : Z) (st : train_state) (loss : Q) : train_state :=
  if is_update_step a step then optimizer_update st loss else st.

(** [global_step] counts the optimizer updates: the difference between the
    two is the same before and after every part of [train]. *)
Definition updates_behind (st : train_state) : Z :=
  global_step st - count_events is_optimizer_step (trace st).

(** Whether the character [c] occurs in [s]. *)
Fixpoint has_char (c : ascii) (s : string) : bool :=
  match s with
  | EmptyString => false
  | String c' s' => Ascii.eqb c' c || has_char c s'
  end.

(** The checkpoint of the state's own step is on disk, with the optimizer
    and scheduler states. *)
Definition checkpointed (a : args) (st : train_state) : Prop :=
  path_exists (files st) (checkpoint_dir a (global_step st)) = true
  ∧ isfile (files st) (path_join (checkpoint_dir a (global_step st)) "optimizer.pt") = true
  ∧ isfile (files st) (path_join (checkpoint_dir a (global_step st)) "scheduler.pt") = true.

(** ** Concrete inputs *)

(** An instance of three tokens of a given task. *)
Definition example_instance (task : Z) : instance :=
  {| input_ids := [101; 7592; 102]; attention_mask := [1; 1; 1];
     token_type_ids := [0; 0; 0]; label := 1%Q; task_index := task |}.

(** A run over two tasks, with the split loader. *)
Definition example_args : args :=
  {| data_dir_list := ["data/MNLI"; "data/RTE"]%string;
     task_names := ["mnli"; "rte"]%string;
     task_list := ["mnli"; "rte"]%string;
     num_label_list := [3; 2];
     model_type := "roberta"; model_name_or_path := "roberta-large";
     output_dir := "out"; max_seq_length := 128;
     do_train := true; do_eval := true;
     gradient_accumulation_steps := 2;
     num_train_epochs := 3%Q; max_steps := -1;
     n_gpu := 1; fp16 := false; local_rank := -1;
     overwrite_output_dir := false; overwrite_cache := false;
     sampling_type := "uniform"; batch_type := "heterogeneous";
     short := false; start_again := false;
     per_gpu_eval_batch_size := 8 |}.

(** The state of a fresh run before its first step. *)
Definition example_state : train_state :=
  {| global_step := 0; steps_trained_in_current_epoch := 0; tr_loss := 0%Q;
     all_losses := []; num_instances := 0; trace := [ZeroGrad]; files := ∅ |}.

(** A model whose loss on a sub-batch is the number of its rows over the
    number of labels, and a set that lists its elements in the order given. *)
Definition example_loss (tr : list event) (num_labels : Z) (b : collated) : Q :=
  (inject_Z (Z.of_nat (length (c_labels b))) / inject_Z num_labels)%Q.

Definition example_set_to_list (l : list Z) : list Z := remove_dups l.


(** A loader of ten batches of two instances, one of each task. *)
Definition example_dataloader : dataloader :=
  {| dl_len := 10;
     dl_batches := λ _, replicate 10 [example_instance 0; example_instance 1] |}.


(** A loader that yields a single batch in each epoch. *)
Definition short_dataloader : dataloader :=
  {| dl_len := 1;
     dl_batches := λ _, [[example_instance 0; example_instance 1]] |}.

(** A raw example with a given label. *)
Definition example_example (label : string) : input_example :=
  {| guid := "dev-1"; text_a := "a premise"; text_b := Some "a hypothesis"%string;
     example_label := label |}.

(** The processors of MNLI and RTE, each with one example per split. *)
Definition mnli_processor : processor :=
  {| get_labels := ["contradiction"; "entailment"; "neutral"]%string;
     get_train_examples := λ _, Ok [example_example "neutral"];
     get_dev_examples := λ _, Ok [example_example "entailment"] |}.

Definition rte_processor : processor :=
  {| get_labels := ["entailment"; "not_entailment"]%string;
     get_train_examples := λ _, Ok [example_example "entailment"];
     get_dev_examples := λ _, Ok [example_example "not_entailment"] |}.

(** The tables of the two tasks. *)
Definition example_processors : gmap string processor :=
  {[ "mnli"%string := mnli_processor; "rte"%string := rte_processor ]}.

Definition example_output_modes : gmap string string :=
  {[ "mnli"%string := "classification"%string; "mnli-mm"%string := "classification"%string;
     "rte"%string := "classification"%string ]}.

(** The features of three tokens. *)
Definition example_features : input_features :=
  {| f_input_ids := [101; 7592; 102]; f_attention_mask := [1; 1; 1];
     f_token_type_ids := [0; 0; 0]; f_label := 1%Q |}.

(** A tokenizer that maps every example to the same three tokens. *)
Definition example_convert (examples : list input_example) (label_list : list string)
    (max_length : Z) (output_mode model_type : string) : result (list input_features) :=
  Ok ((λ _, example_features) <$> examples).

(** A metrics engine that reports an accuracy of one half. *)
Definition example_metrics (eval_task : string) (num_labels : Z)
    (dataset : list input_features) : result (gmap string Q) :=
  Ok {[ "acc"%string := (1 # 2)%Q ]}.

(** [a] with its switches, tasks, window, cap and rank replaced. *)
Definition set_run (a : args) (train eval overwrite : bool) (tasks dirs : list string)
    (labels : list Z) (accumulation cap rank : Z) : args :=
  {| data_dir_list := dirs; task_names := tasks; task_list := tasks;
     num_label_list := labels;
     model_type := model_type a; model_name_or_path := model_name_or_path a;
     output_dir := output_dir a; max_seq_length := max_seq_length a;
     do_train := train; do_eval := eval;
     gradient_accumulation_steps := accumulation;
     num_train_epochs := num_train_epochs a; max_steps := cap;
     n_gpu := n_gpu a; fp16 := fp16 a; local_rank := rank;
     overwrite_output_dir := overwrite_output_dir a;
     overwrite_cache := overwrite; sampling_type := sampling_type a;
     batch_type := batch_type a; short := short a; start_again := start_again a;
     per_gpu_eval_batch_size := per_gpu_eval_batch_size a |}.

(** An output directory in which an earlier run wrote [results.json]. *)
Definition finished_fs : filesystem :=
  {[ "out"%string := Dir; "out/results.json"%string := File None ]}.

(** The second invocation, evaluation only. *)
Definition eval_only_args : args :=
  set_run example_args false true false ["mnli"; "rte"]%string
    ["data/MNLI"; "data/RTE"]%string [3; 2] 2 (-1) (-1).

(** A run on MNLI alone. *)
Definition mnli_args : args :=
  set_run example_args false true false ["mnli"]%string ["data/MNLI"]%string [3] 2 (-1) (-1).

(** A run capped at one optimizer step, updating at every batch. *)
Definition capped_args : args :=
  set_run example_args true true false ["mnli"; "rte"]%string
    ["data/MNLI"; "data/RTE"]%string [3; 2] 1 1 (-1).

(** A loader of three batches per epoch. *)
Definition capped_dataloader : dataloader :=
  {| dl_len := 3;
     dl_batches := λ _, replicate 3 [example_instance 0; example_instance 1] |}.

(** A process of rank 1 asked to overwrite the cache. *)
Definition rank1_args : args :=
  set_run example_args true true true ["mnli"; "rte"]%string
    ["data/MNLI"; "data/RTE"]%string [3; 2] 2 (-1) 1.

(** [a] with its model path, its number of GPUs and its mixed-precision
    switch replaced. *)
Definition set_model (a : args) (path : string) (gpus : Z) (half_precision : bool) : args :=
  {| data_dir_list := data_dir_list a; task_names := task_names a;
     task_list := task_list a; num_label_list := num_label_list a;
     model_type := model_type a; model_name_or_path := path;
     output_dir := output_dir a; max_seq_length := max_seq_length a;
     do_train := do_train a; do_eval := do_eval a;
     gradient_accumulation_steps := gradient_accumulation_steps a;
     num_train_epochs := num_train_epochs a; max_steps := max_steps a;
     n_gpu := gpus; fp16 := half_precision; local_rank := local_rank a;
     overwrite_output_dir := overwrite_output_dir a;
     overwrite_cache := overwrite_cache a; sampling_type := sampling_type a;
     batch_type := batch_type a; short := short a; start_again := start_again a;
     per_gpu_eval_batch_size := per_gpu_eval_batch_size a |}.

(** Runs on two GPUs and with mixed precision. *)
Definition multi_gpu_args : args := set_model example_args "roberta-large" 2 false.

Definition fp16_args : args := set_model example_args "roberta-large" 1 true.

(** A run whose accumulation window is zero. *)
Definition zero_window_args : args :=
  set_run example_args true true false ["mnli"; "rte"]%string
    ["data/MNLI"; "data/RTE"]%string [3; 2] 0 (-1) (-1).

(** A run started from a directory below the checkpoint of step 7. *)
Definition below_checkpoint_args : args :=
  set_model example_args "out/checkpoint-7/best" 1 false.

(** Two runs whose models lie in different places under the same name. *)
Definition first_model_args : args := set_model example_args "models/a/final" 1 false.

Definition second_model_args : args := set_model example_args "models/b/final" 1 false.

(** An evaluation of RTE alone, and a processor of RTE without held-out
    examples. *)
Definition rte_args : args :=
  set_run example_args false true false ["rte"]%string ["data/RTE"]%string [2] 2 (-1) (-1).

Definition empty_dev_processors : gmap string processor :=
  {[ "rte"%string :=
       {| get_labels := ["entailment"; "not_entailment"]%string;
          get_train_examples := λ _, Ok [example_example "entailment"];
          get_dev_examples := λ _, Ok [] |} ]}.

(** The same metrics for every checkpoint. *)
Definition example_checkpoint_metrics (checkpoint : string) :
    string → Z → list input_features → result (gmap string Q) := example_metrics.

End RunGlue.
Import RunGlue.

(** * Properties *)

(** ** The Python primitives on examples *)

Example split_path :
  split "-" "out/roberta-large/checkpoint-500/"
  = ["out/roberta"; "large/checkpoint"; "500/"]%string.
Proof. reflexivity. Qed.

Example int_of_padded_literal : int " 1_000 " = Ok 1000.
Proof. vm_compute. reflexivity. Qed.

Example int_of_negative_literal : int "-12" = Ok (-12).
Proof. vm_compute. reflexivity. Qed.

Example int_of_word : is_ok (int "large") = false.
Proof. vm_compute. reflexivity. Qed.

Example index_from_the_end : index [1; 2; 3] (-1) = Ok 3.
Proof. reflexivity. Qed.

Example index_out_of_range : index [1; 2; 3] 3 = Raise IndexError.
Proof. reflexivity. Qed.

Example path_join_relative : path_join "out" "checkpoint-5" = "out/checkpoint-5"%string.
Proof. reflexivity. Qed.

Example path_join_empty_name : path_join "out" "" = "out/"%string.
Proof. reflexivity. Qed.

Example remove_all_mm : remove_all "-mm" "mnli-mm" = "mnli"%string.
Proof. vm_compute. reflexivity. Qed.

Example contains_dnc : contains "dnc" "runs/dnc_uniform" = true.
Proof. vm_compute. reflexivity. Qed.

Example listdir_finished : listdir finished_fs "out" = Ok ["results.json"%string].
Proof. vm_compute. reflexivity. Qed.

(** ** The batch assembler *)

Lemma norm_index_in_range (len : nat) (i : Z) :
  0 ≤ i < Z.of_nat len → norm_index len i = Ok (Z.to_nat i).
Proof.
  intros [H0 H1]. unfold norm_index.
  destruct (Z.ltb_spec i 0); [lia|].
  destruct (Z.leb_spec 0 i); [|lia].
  destruct (Z.ltb_spec i (Z.of_nat len)); [|lia].
  reflexivity.
Qed.

Lemma group_by_task_spec (batch : list instance) (groups : list (list instance)) :
  Forall (λ i, 0 ≤ task_index i < Z.of_nat (length groups)) batch →
  group_by_task batch groups
  = Ok (imap (λ t g, g ++ instances_of_task batch t) groups).
Proof.
  revert groups. induction batch as [|inst rest IH]; intros groups Hall.
  - simpl. f_equal. apply list_eq. intros k.
    rewrite list_lookup_imap. destruct (groups !! k); simpl; [|done].
    by rewrite app_nil_r.
  - inversion Hall as [|? ? Hin Hrest]; subst.
    simpl. rewrite norm_index_in_range by done. simpl.
    rewrite IH by (by rewrite length_alter).
    f_equal. apply list_eq. intros k.
    rewrite !list_lookup_imap.
    destruct (decide (k = Z.to_nat (task_index inst))) as [->|Hne].
    + rewrite list_lookup_alter_eq. destruct (groups !! _); simpl; [|done].
      unfold instances_of_task. rewrite filter_cons_True by lia.
      by rewrite <- app_assoc.
    + rewrite list_lookup_alter_ne by done. destruct (groups !! k); simpl; [|done].
      unfold instances_of_task. rewrite filter_cons_False by lia. done.
Qed.

Lemma sum_list_lengths_nil (groups : list (list instance)) :
  Forall (λ g, g = []) groups → sum_list (length <$> groups) = 0%nat.
Proof. induction 1 as [|g gs Hg _ IH]; csimpl; [done|]. by rewrite Hg, IH. Qed.

Lemma sum_list_lengths_pos (groups : list (list instance)) (g : list instance) :
  g ∈ groups → g ≠ [] → sum_list (length <$> groups) ≠ 0%nat.
Proof.
  intros Hin Hne. induction Hin as [g gs|g g' gs _ IH]; csimpl.
  - destruct g; [done|]. simpl. lia.
  - specialize (IH Hne). lia.
Qed.

Lemma mapM_default_collate (groups : list (list instance)) :
  Forall (λ g, g ≠ []) groups →
  mapM default_collate groups = Ok (stack_fields <$> groups).
Proof.
  induction 1 as [|g gs Hg _ IH]; [done|].
  cbn [mapM]. rewrite IH. destruct g; [done|]. reflexivity.
Qed.

Lemma groups_of_batch (batch : list instance) (n : nat) :
  imap (λ t g, g ++ instances_of_task batch t) (replicate n [])
  = instances_of_task batch <$> seq 0 n.
Proof.
  apply list_eq. intros k. rewrite list_lookup_imap, list_lookup_fmap.
  destruct (decide (k < n)%nat) as [Hk|Hk].
  - rewrite lookup_replicate_2 by done. rewrite lookup_seq_lt by done. done.
  - rewrite (proj1 (lookup_replicate_None n [] k)) by lia.
    rewrite lookup_seq_ge by lia. done.
Qed.

(** C3.  When every per-task group of a raw batch is empty, [collate_func]
    raises the exception [Empty task lists] instead of returning
    sub-batches, and under the split loader the epoch loop ends with that
    exception at that batch, whatever the step and the state: the batch is
    not skipped and nothing tries it again. *)
Theorem collate_func_empty_composite_batch
    (model_loss : list event → Z → collated → Q) (set_to_list : list Z → list Z)
    (a : args) (batch : list instance) (groups : list (list instance)) :
  group_by_task batch (replicate (length (data_dir_list a)) []) = Ok groups →
  Forall (λ g, g = []) groups →
  collate_func a batch = Raise (Exception "Empty task lists")
  ∧ (use_dense_dataloader a = false →
     ∀ half_of_batch step rest st,
       epoch_loop model_loss set_to_list a half_of_batch step (batch :: rest) st
       = Raise (Exception "Empty task lists")).
Proof.
  intros Hgroups Hempty.
  assert (Hraise : collate_func a batch = Raise (Exception "Empty task lists")).
  { unfold collate_func. rewrite Hgroups. simpl.
    by rewrite sum_list_lengths_nil. }
  split; [done|].
  intros Hsplit half step rest st. simpl.
  unfold collate_fn. rewrite Hsplit, Hraise. done.
Qed.

(** C3 on the empty raw batch of the two-task run. *)
Lemma collate_func_empty_composite_batch_witness :
  collate_func example_args [] = Raise (Exception "Empty task lists")
  ∧ (use_dense_dataloader example_args = false →
     ∀ half_of_batch step rest st,
       epoch_loop (λ _ _ _, 1%Q) (λ l, l) example_args half_of_batch step ([] :: rest) st
       = Raise (Exception "Empty task lists")).
Proof.
  apply (collate_func_empty_composite_batch (λ _ _ _, 1%Q) (λ l, l) example_args [] [[]; []]).
  - reflexivity.
  - repeat constructor.
Defined.

Lemma instances_of_task_homogeneous (batch : list instance) (t : nat) :
  Forall (λ x, x = Z.of_nat t) (task_index <$> instances_of_task batch t).
Proof.
  unfold instances_of_task. rewrite Forall_fmap. apply Forall_forall.
  intros i Hi. by apply list_elem_of_filter in Hi as [? _].
Qed.

Lemma filter_disjoint_app (P Q : instance → Prop)
    `{∀ i, Decision (P i)} `{∀ i, Decision (Q i)} (l : list instance) :
  (∀ i, P i → Q i → False) →
  filter P l ++ filter Q l ≡ₚ filter (λ i, P i ∨ Q i) l.
Proof.
  intros Hdisj. induction l as [|i l IH]; [done|].
  destruct (decide (P i)) as [HP|HP]; destruct (decide (Q i)) as [HQ|HQ].
  - destruct (Hdisj i HP HQ).
  - rewrite (filter_cons_True P) by done. rewrite (filter_cons_False Q) by done.
    rewrite filter_cons_True by tauto. simpl. by rewrite IH.
  - rewrite (filter_cons_False P) by done. rewrite (filter_cons_True Q) by done.
    rewrite filter_cons_True by tauto.
    rewrite <- Permutation_middle. by rewrite IH.
  - rewrite (filter_cons_False P) by done. rewrite (filter_cons_False Q) by done.
    rewrite filter_cons_False by tauto. done.
Qed.

Lemma concat_instances_of_task (batch : list instance) (n : nat) :
  concat (instances_of_task batch <$> seq 0 n)
  ≡ₚ filter (λ i, 0 ≤ task_index i < Z.of_nat n) batch.
Proof.
  induction n as [|n IH].
  - simpl. symmetry. apply Permutation_nil_r.
    induction batch as [|i l IHl]; [done|].
    rewrite filter_cons_False by lia. done.
  - rewrite seq_S, fmap_app, concat_app. simpl. rewrite app_nil_r, IH.
    unfold instances_of_task. rewrite filter_disjoint_app by lia.
    apply reflexive_eq, list_filter_iff. intros i. lia.
Qed.

Lemma concat_filter_nonempty (groups : list (list instance)) :
  concat (filter (λ g, g ≠ []) groups) = concat groups.
Proof.
  induction groups as [|g gs IH]; [done|].
  destruct g as [|i g].
  - rewrite filter_cons_False by (intros Hne; by apply Hne). done.
  - rewrite filter_cons_True by done. simpl. by rewrite IH.
Qed.

Lemma sub_batch_tasks_sorted (batch : list instance) (m n : nat) :
  StronglySorted Z.lt
    (omap sub_batch_task
       (stack_fields <$> filter (λ g, g ≠ []) (instances_of_task batch <$> seq m n)))
  ∧ Forall (λ t, Z.of_nat m ≤ t)
      (omap sub_batch_task
         (stack_fields <$> filter (λ g, g ≠ []) (instances_of_task batch <$> seq m n))).
Proof.
  revert m. induction n as [|n IH]; intros m.
  - split; constructor.
  - destruct (IH (S m)) as [Hsorted Hge]. simpl.
    destruct (instances_of_task batch m) as [|i g] eqn:Hg.
    + rewrite filter_cons_False by (intros Hne; by apply Hne).
      split; [done|]. eapply Forall_impl; [exact Hge|]. intros; simpl in *; lia.
    + rewrite filter_cons_True by done. csimpl.
      assert (Hi : task_index i = Z.of_nat m).
      { pose proof (instances_of_task_homogeneous batch m) as Hh.
        rewrite Hg in Hh. by inversion Hh. }
      rewrite Hi. split.
      * constructor; [done|]. eapply Forall_impl; [exact Hge|]. intros; simpl in *; lia.
      * constructor; [lia|]. eapply Forall_impl; [exact Hge|]. intros; simpl in *; lia.
Qed.

Lemma concat_nonempty_group (groups : list (list instance)) :
  concat groups ≠ [] → ∃ g, g ∈ groups ∧ g ≠ [].
Proof.
  induction groups as [|g gs IH]; [done|]. simpl. intros Hne.
  destruct g as [|i g].
  - destruct (IH Hne) as (g' & Hin & Hg'). exists g'. split; [by right|done].
  - exists (i :: g). split; [by left|done].
Qed.

(** C4, as amended.  For a non-empty raw batch whose task indices are
    those of configured tasks, [collate_func] returns the stacked non-empty
    groups [instances_of_task batch t] for [t = 0, 1, ...]: every sub-batch
    holds one task only, none is empty, the sub-batches come in increasing
    order of task index, and together they hold the instances of the raw
    batch. *)
Theorem collate_func_sub_batches (a : args) (batch : list instance) :
  batch ≠ [] →
  Forall (λ i, 0 ≤ task_index i < Z.of_nat (length (data_dir_list a))) batch →
  let groups :=
    filter (λ g, g ≠ []) (instances_of_task batch <$> seq 0 (length (data_dir_list a))) in
  collate_func a batch = Ok (stack_fields <$> groups)
  ∧ Forall (λ sub, ∃ t, Forall (λ x, x = t) (c_task_index sub)) (stack_fields <$> groups)
  ∧ Forall (λ sub, c_task_index sub ≠ []) (stack_fields <$> groups)
  ∧ StronglySorted Z.lt (omap sub_batch_task (stack_fields <$> groups))
  ∧ concat groups ≡ₚ batch.
Proof.
  intros Hne Hrange groups.
  set (n := length (data_dir_list a)) in *.
  set (all_groups := instances_of_task batch <$> seq 0 n).
  assert (Hperm : concat all_groups ≡ₚ batch).
  { unfold all_groups. rewrite concat_instances_of_task.
    apply reflexive_eq. clear Hne. induction Hrange as [|i l Hi _ IH]; [done|].
    rewrite filter_cons_True by done. by rewrite IH. }
  assert (Hgroups : Forall (λ g, g ≠ []) groups).
  { apply Forall_forall. intros g Hg. by apply list_elem_of_filter in Hg as [? _]. }
  split; [|split; [|split; [|split]]].
  - unfold collate_func.
    rewrite group_by_task_spec by (by rewrite length_replicate).
    rewrite groups_of_batch. fold n. fold all_groups. csimpl.
    assert (Hsome : ∃ g, g ∈ all_groups ∧ g ≠ []).
    { apply concat_nonempty_group. intros Hnil. rewrite Hnil in Hperm.
      by apply Permutation_nil_l in Hperm. }
    destruct Hsome as (g & Hg & Hgne).
    destruct (Nat.eqb_spec (sum_list (length <$> all_groups)) 0) as [H0|_].
    { by destruct (sum_list_lengths_pos all_groups g). }
    case_bool_decide as Hzero.
    + rewrite (list_filter_iff _ (λ g, g ≠ [])) by (intros [|? ?]; simpl; split; congruence).
      by apply mapM_default_collate.
    + assert (Hall : Forall (λ g, g ≠ []) all_groups).
      { apply Forall_forall. intros g' Hg' ->. apply Hzero.
        apply list_elem_of_fmap. by exists []. }
      rewrite mapM_default_collate by done.
      unfold groups. fold all_groups.
      f_equal. f_equal. symmetry. clear -Hall.
      induction Hall as [|g gs Hg _ IH]; [done|].
      rewrite filter_cons_True by done. by rewrite IH.
  - rewrite Forall_fmap. apply Forall_forall. intros g Hg.
    apply list_elem_of_filter in Hg as [_ Hg].
    apply list_elem_of_fmap in Hg as (t & -> & _).
    exists (Z.of_nat t). apply instances_of_task_homogeneous.
  - rewrite Forall_fmap. eapply Forall_impl; [exact Hgroups|].
    intros g Hg. simpl. by destruct g.
  - apply sub_batch_tasks_sorted.
  - unfold groups. fold all_groups. by rewrite concat_filter_nonempty.
Qed.

(** C4 on the raw batch of one instance of task 1 followed by one of task 0. *)
Lemma collate_func_sub_batches_witness :
  let batch := [example_instance 1; example_instance 0] in
  let groups :=
    filter (λ g, g ≠ [])
      (instances_of_task batch <$> seq 0 (length (data_dir_list example_args))) in
  collate_func example_args batch = Ok (stack_fields <$> groups)
  ∧ Forall (λ sub, ∃ t, Forall (λ x, x = t) (c_task_index sub)) (stack_fields <$> groups)
  ∧ Forall (λ sub, c_task_index sub ≠ []) (stack_fields <$> groups)
  ∧ StronglySorted Z.lt (omap sub_batch_task (stack_fields <$> groups))
  ∧ concat groups ≡ₚ batch.
Proof.
  apply (collate_func_sub_batches example_args [example_instance 1; example_instance 0]).
  - done.
  - repeat constructor; simpl; lia.
Defined.

(** C4, counterexample.  In the raw batch [[task 1; task 0]] task 1 appears
    first, and the sub-batch of task 0 is returned first. *)
Lemma collate_func_order_counterexample :
  [example_instance 1; example_instance 0] ≠ []
  ∧ ∃ subs,
      collate_func example_args [example_instance 1; example_instance 0] = Ok subs
      ∧ omap sub_batch_task subs = [0; 1]
      ∧ order_of_appearance [] [example_instance 1; example_instance 0] = [1; 0]
      ∧ omap sub_batch_task subs
        ≠ order_of_appearance [] [example_instance 1; example_instance 0].
Proof.
  split; [done|].
  exists [stack_fields [example_instance 0]; stack_fields [example_instance 1]].
  split; [vm_compute; reflexivity|].
  split; [reflexivity|]. split; [reflexivity|]. discriminate.
Qed.

(** ** One training step *)

Section TrainStep.

Variable model_loss : list event → Z → collated → Q.
Variable set_to_list : list Z → list Z.

Local Abbreviation forward_batch := (forward_batch model_loss set_to_list).
Local Abbreviation forward_sub_batch := (forward_sub_batch model_loss set_to_list).
Local Abbreviation select_num_labels := (select_num_labels set_to_list).
Local Abbreviation sub_losses := (sub_losses model_loss set_to_list).
Local Abbreviation train_step := (train_step model_loss set_to_list).

Lemma add_instances_0 st : add_instances st 0 = st.
Proof. destruct st. unfold add_instances. simpl. f_equal. lia. Qed.

Lemma add_instances_add st n m :
  add_instances (add_instances st n) m = add_instances st (n + m).
Proof. unfold add_instances. simpl. f_equal. lia. Qed.

Lemma forward_batch_ok a st loss batch_all :
  n_gpu a ≤ 1 →
  Forall (λ b, is_ok (select_num_labels a b) = true) batch_all →
  ∃ n, forward_batch a st loss batch_all
       = Ok (add_instances st n, fold_loss loss (sub_losses a (trace st) batch_all)).
Proof.
  intros Hgpu Hall. revert st loss.
  induction Hall as [|b bs Hb _ IH]; intros st loss.
  - exists 0. simpl. by rewrite add_instances_0.
  - simpl. unfold forward_sub_batch, sub_losses. simpl.
    destruct (select_num_labels a b) as [nl|e] eqn:Hsel; [|done]. simpl.
    destruct (Z.gtb_spec (n_gpu a) 1) as [?|_]; [lia|]. simpl.
    destruct (IH (add_instances st (Z.of_nat (length (c_input_ids b))))
                 (Some match loss with
                       | Some l => (l + model_loss (trace st) nl b)%Q
                       | None => model_loss (trace st) nl b
                       end)) as [n Hn].
    exists (Z.of_nat (length (c_input_ids b)) + n).
    rewrite Hn. rewrite add_instances_add. done.
Qed.

Lemma fold_loss_sum (x : Q) (ls : list Q) :
  ∃ l, fold_loss (Some x) ls = Some l ∧ (l == x + sum_Q ls)%Q.
Proof.
  revert x. induction ls as [|y ys IH]; intros x.
  - exists x. split; [done|]. simpl. ring.
  - simpl. destruct (IH (x + y)%Q) as (l & Hl & Heq).
    exists l. split; [done|]. rewrite Heq. simpl. ring.
Qed.

Lemma fold_loss_None_sum (ls : list Q) :
  ls ≠ [] → ∃ l, fold_loss None ls = Some l ∧ (l == sum_Q ls)%Q.
Proof.
  destruct ls as [|y ys]; [done|]. intros _. simpl.
  destruct (fold_loss_sum y ys) as (l & Hl & Heq). by exists l.
Qed.

Lemma sub_losses_nonempty a tr batch_all :
  batch_all ≠ [] →
  Forall (λ b, is_ok (select_num_labels a b) = true) batch_all →
  sub_losses a tr batch_all ≠ [].
Proof.
  intros Hne Hall. destruct Hall as [|b bs Hb _]; [done|].
  unfold sub_losses. simpl. by destruct (select_num_labels a b).
Qed.

End TrainStep.

Lemma count_events_app p tr tr' :
  count_events p (tr ++ tr') = count_events p tr + count_events p tr'.
Proof. unfold count_events. rewrite List.filter_app, length_app. lia. Qed.

Lemma is_update_step_multiple a step :
  gradient_accumulation_steps a ≠ 0 →
  is_update_step a step = true ↔ ∃ k, step + 1 = k * gradient_accumulation_steps a.
Proof.
  intros Hn. unfold is_update_step. rewrite Z.eqb_eq.
  rewrite Z.mod_divide by done. reflexivity.
Qed.

Lemma update_step_unique_in_window a k :
  1 ≤ gradient_accumulation_steps a →
  ∃ j, (k ≤ j < k + gradient_accumulation_steps a ∧ is_update_step a j = true)
       ∧ ∀ j', k ≤ j' < k + gradient_accumulation_steps a →
               is_update_step a j' = true → j' = j.
Proof.
  intros Hn. set (n := gradient_accumulation_steps a) in *.
  pose proof (Z.mod_pos_bound (k + 1) n ltac:(lia)) as Hr.
  pose proof (Z.div_mod (k + 1) n ltac:(lia)) as Hdm.
  set (r := (k + 1) mod n) in *. set (q := (k + 1) / n) in *.
  assert (Huniq : ∀ j j', k ≤ j < k + n → k ≤ j' < k + n →
            is_update_step a j = true → is_update_step a j' = true → j' = j).
  { intros j j' Hj Hj' Hu Hu'.
    apply is_update_step_multiple in Hu as [c Hc]; [|fold n; lia].
    apply is_update_step_multiple in Hu' as [c' Hc']; [|fold n; lia].
    fold n in Hc, Hc'. assert (c = c') by nia. subst. lia. }
  destruct (decide (r = 0)) as [Hr0|Hr0].
  - exists k. split.
    + split; [lia|]. apply is_update_step_multiple; [fold n; lia|].
      exists q. fold n. lia.
    + intros j' Hj' Hu'. apply (Huniq k j'); try done; [lia|].
      apply is_update_step_multiple; [fold n; lia|]. exists q. fold n. lia.
  - assert (Hj : is_update_step a (k + n - r) = true).
    { apply is_update_step_multiple; [fold n; lia|]. exists (q + 1). fold n. lia. }
    exists (k + n - r). split; [split; [lia|done]|].
    intros j' Hj' Hu'. apply (Huniq (k + n - r) j'); try done. lia.
Qed.

Lemma div_succ_update a s :
  1 ≤ gradient_accumulation_steps a →
  (s + 1) / gradient_accumulation_steps a - s / gradient_accumulation_steps a
  = if is_update_step a s then 1 else 0.
Proof.
  intros Hn. unfold is_update_step. set (n := gradient_accumulation_steps a) in *.
  pose proof (Z.mod_pos_bound (s + 1) n ltac:(lia)) as Hr1.
  pose proof (Z.div_mod (s + 1) n ltac:(lia)) as Hdm1.
  pose proof (Z.mod_pos_bound s n ltac:(lia)) as Hr0.
  pose proof (Z.div_mod s n ltac:(lia)) as Hdm0.
  destruct (Z.eqb_spec ((s + 1) mod n) 0) as [H0|H0]; nia.
Qed.

Section TrainLoop.

Variable model_loss : list event → Z → collated → Q.
Variable set_to_list : list Z → list Z.

Local Abbreviation forward_batch := (forward_batch model_loss set_to_list).
Local Abbreviation forward_sub_batch := (forward_sub_batch model_loss set_to_list).
Local Abbreviation select_num_labels := (select_num_labels set_to_list).
Local Abbreviation sub_losses := (sub_losses model_loss set_to_list).
Local Abbreviation train_step := (train_step model_loss set_to_list).
Local Abbreviation epoch_loop := (epoch_loop model_loss set_to_list).
Local Abbreviation train_loop := (train_loop model_loss set_to_list).

Lemma forward_batch_inv a st loss batch_all st' loss' :
  forward_batch a st loss batch_all = Ok (st', loss') →
  ∃ n, st' = add_instances st n.
Proof.
  revert st loss. induction batch_all as [|b bs IH]; intros st loss.
  - simpl. intros [= <- <-]. exists 0. by rewrite add_instances_0.
  - simpl. unfold RunGlue.forward_sub_batch.
    destruct (select_num_labels a b) as [nl|e]; [|done]. simpl.
    destruct (n_gpu a >? 1); [destruct loss; [|done]|]; simpl;
      intros H; apply IH in H as [n ->]; rewrite add_instances_add; eauto.
Qed.

Lemma accumulate_inv a step st loss st' :
  accumulate a step st loss = Ok st' →
  ∃ l, st' = finish_step a step (backward st l) l.
Proof.
  unfold accumulate, finish_step, is_update_step, modulo.
  destruct (gradient_accumulation_steps a >? 1); [destruct loss; [|done]|]; simpl;
    (destruct (fp16 a); [done|]);
    [|destruct loss; [|done]];
    (destruct (gradient_accumulation_steps a =? 0); [done|]); simpl;
    (destruct (_ =? 0); intros [= <-]; eauto).
Qed.

Lemma train_step_inv a step batch_all st st' :
  train_step a step batch_all st = Ok st' →
  ∃ n l, st' = finish_step a step (backward (add_instances st n) l) l.
Proof.
  unfold RunGlue.train_step.
  destruct (forward_batch a st None batch_all) as [[st1 loss]|e] eqn:Hfw; [|done].
  simpl. intros Hacc. apply forward_batch_inv in Hfw as [n ->].
  apply accumulate_inv in Hacc as [l ->]. eauto.
Qed.

(** What a finished step leaves in the state. *)
Lemma finish_step_global_step a step st n l :
  global_step (finish_step a step (backward (add_instances st n) l) l)
  = global_step st + (if is_update_step a step then 1 else 0).
Proof. unfold finish_step. destruct (is_update_step a step); simpl; lia. Qed.

Lemma finish_step_trace a step st n l :
  trace (finish_step a step (backward (add_instances st n) l) l)
  = trace st ++ Backward l :: (if is_update_step a step then update_events else []).
Proof.
  unfold finish_step. destruct (is_update_step a step); simpl.
  - by rewrite <- app_assoc.
  - done.
Qed.

Lemma finish_step_skip a step st n l :
  steps_trained_in_current_epoch (finish_step a step (backward (add_instances st n) l) l)
  = steps_trained_in_current_epoch st.
Proof. unfold finish_step. by destruct (is_update_step a step). Qed.

Lemma finish_step_tr_loss a step st n l :
  tr_loss (finish_step a step (backward (add_instances st n) l) l) = (tr_loss st + l)%Q.
Proof. unfold finish_step. by destruct (is_update_step a step). Qed.

Lemma finish_step_updates_behind a step st n l :
  updates_behind (finish_step a step (backward (add_instances st n) l) l)
  = updates_behind st.
Proof.
  unfold updates_behind. rewrite finish_step_global_step, finish_step_trace.
  rewrite count_events_app. destruct (is_update_step a step); unfold count_events; simpl; lia.
Qed.

Lemma save_model_updates_behind a st : updates_behind (save_model a st) = updates_behind st.
Proof.
  unfold updates_behind. simpl. rewrite count_events_app. unfold count_events. simpl. lia.
Qed.

Lemma add_event_updates_behind st e :
  is_optimizer_step e = false → updates_behind (add_event st e) = updates_behind st.
Proof.
  intros He. unfold updates_behind. simpl. rewrite count_events_app.
  unfold count_events. simpl. rewrite He. simpl. lia.
Qed.

Lemma epoch_loop_updates_behind a half step batches st st' :
  epoch_loop a half step batches st = Ok st' →
  updates_behind st' = updates_behind st.
Proof.
  revert step st. induction batches as [|raw rest IH]; intros step st.
  - simpl. by intros [= <-].
  - simpl. destruct (collate_fn a raw) as [batch_all|e]; [|done]. simpl.
    destruct (steps_trained_in_current_epoch st >? 0).
    + intros H. by apply IH in H.
    + set (st1 := if step =? half then save_model a st else st).
      assert (H1 : updates_behind st1 = updates_behind st).
      { unfold st1. destruct (step =? half); [apply save_model_updates_behind|done]. }
      destruct (train_step a step batch_all st1) as [st2|e] eqn:Hstep; [|done]. simpl.
      apply train_step_inv in Hstep as (n & l & ->).
      destruct (past_max_steps a _).
      * intros [= <-]. rewrite add_event_updates_behind by done.
        by rewrite finish_step_updates_behind.
      * intros H. apply IH in H. by rewrite H, finish_step_updates_behind.
Qed.

Lemma end_of_epoch_updates_behind a epoch st :
  updates_behind (end_of_epoch a epoch st) = updates_behind st.
Proof.
  unfold end_of_epoch. rewrite save_model_updates_behind.
  unfold updates_behind. simpl. rewrite count_events_app. unfold count_events. simpl. lia.
Qed.

Lemma train_loop_updates_behind a dl epochs st st' :
  train_loop a dl epochs st = Ok st' →
  updates_behind st' = updates_behind st.
Proof.
  revert st. induction epochs as [|epoch rest IH]; intros st.
  - simpl. by intros [= <-].
  - simpl.
    set (st0 := set_all_losses (add_event (if String.eqb _ _ then _ else _) ZeroGrad) []).
    assert (H0 : updates_behind st0 = updates_behind st).
    { unfold st0. destruct (String.eqb _ _); unfold updates_behind; simpl;
        rewrite ?count_events_app; unfold count_events; simpl; lia. }
    destruct (epoch_loop a _ 0 _ st0) as [st1|e] eqn:Hep; [|done]. simpl.
    apply epoch_loop_updates_behind in Hep.
    set (st2 := if in_first_process a then end_of_epoch a epoch st1 else st1).
    assert (H2 : updates_behind st2 = updates_behind st).
    { unfold st2. destruct (in_first_process a);
        rewrite ?end_of_epoch_updates_behind; congruence. }
    destruct (past_max_steps a _).
    + intros [= <-]. by rewrite add_event_updates_behind.
    + intros H. apply IH in H. congruence.
Qed.

(** Without a cap and without steps to skip, an epoch advances
    [global_step] by the number of multiples of the window among its step
    numbers. *)
Lemma epoch_loop_global_step a half step batches st st' :
  1 ≤ gradient_accumulation_steps a →
  max_steps a ≤ 0 →
  steps_trained_in_current_epoch st ≤ 0 →
  epoch_loop a half step batches st = Ok st' →
  global_step st'
  = global_step st
    + ((step + Z.of_nat (length batches)) / gradient_accumulation_steps a
       - step / gradient_accumulation_steps a).
Proof.
  intros Hn Hmax. revert step st. induction batches as [|raw rest IH]; intros step st Hskip.
  - simpl. intros [= <-]. rewrite Z.add_0_r. lia.
  - simpl length. simpl epoch_loop.
    destruct (collate_fn a raw) as [batch_all|e]; [|done]. simpl.
    destruct (Z.gtb_spec (steps_trained_in_current_epoch st) 0) as [?|_]; [lia|].
    set (st1 := if step =? half then save_model a st else st).
    assert (H1 : global_step st1 = global_step st ∧
                 steps_trained_in_current_epoch st1 = steps_trained_in_current_epoch st).
    { unfold st1. by destruct (step =? half). }
    destruct H1 as [Hgs1 Hskip1].
    destruct (train_step a step batch_all st1) as [st2|e] eqn:Hstep; [|done]. simpl.
    apply train_step_inv in Hstep as (n & l & ->).
    unfold past_max_steps. destruct (Z.gtb_spec (max_steps a) 0) as [?|_]; [lia|]. simpl.
    intros H. apply IH in H; [|by rewrite finish_step_skip, Hskip1].
    rewrite H, finish_step_global_step, Hgs1.
    pose proof (div_succ_update a step Hn) as Hd.
    replace (step + Z.of_nat (S (length rest))) with (step + 1 + Z.of_nat (length rest)) by lia.
    lia.
Qed.

End TrainLoop.

(** C1.  A step that the loop runs, with an accumulation window of at
    least one (one GPU at most, [fp16] off, a non-empty batch whose label
    counts resolve): the step returns; the loss it backpropagates and adds
    to [tr_loss] is the sum of the sub-batch losses divided by the window;
    the gradient clipping, the optimizer step, the scheduler step and the
    gradient reset follow, and [global_step] grows by one, exactly when
    [step + 1] is a multiple of the window.  Among any [window] consecutive
    step numbers exactly one is such a step, and over an epoch without a
    cap and without skipped steps [global_step] grows by the number of
    multiples of the window among the step numbers, which is the number of
    optimizer steps taken. *)
Theorem gradient_accumulation_window
    (model_loss : list event → Z → collated → Q) (set_to_list : list Z → list Z)
    (a : args) (step : Z) (batch_all : list collated) (st : train_state) :
  1 ≤ gradient_accumulation_steps a →
  n_gpu a ≤ 1 →
  fp16 a = false →
  batch_all ≠ [] →
  Forall (λ b, is_ok (select_num_labels set_to_list a b) = true) batch_all →
  (∃ loss st',
      train_step model_loss set_to_list a step batch_all st = Ok st'
      ∧ (loss == sum_Q (sub_losses model_loss set_to_list a (trace st) batch_all)
                 / inject_Z (gradient_accumulation_steps a))%Q
      ∧ tr_loss st' = (tr_loss st + loss)%Q
      ∧ trace st'
        = trace st ++ Backward loss :: (if is_update_step a step then update_events else [])
      ∧ global_step st' = global_step st + (if is_update_step a step then 1 else 0))
  ∧ (∀ s, is_update_step a s = true ↔ ∃ k, s + 1 = k * gradient_accumulation_steps a)
  ∧ (∀ k, ∃ j,
        (k ≤ j < k + gradient_accumulation_steps a ∧ is_update_step a j = true)
        ∧ ∀ j', k ≤ j' < k + gradient_accumulation_steps a →
                is_update_step a j' = true → j' = j)
  ∧ (∀ half_of_batch step0 batches st0 st1,
        max_steps a ≤ 0 →
        steps_trained_in_current_epoch st0 ≤ 0 →
        epoch_loop model_loss set_to_list a half_of_batch step0 batches st0 = Ok st1 →
        global_step st1 - global_step st0
        = (step0 + Z.of_nat (length batches)) / gradient_accumulation_steps a
          - step0 / gradient_accumulation_steps a
        ∧ global_step st1 - global_step st0
          = count_events is_optimizer_step (trace st1)
            - count_events is_optimizer_step (trace st0)).
Proof.
  intros Hn Hgpu Hfp Hne Hall.
  split; [|split; [|split]].
  - destruct (forward_batch_ok model_loss set_to_list a st None batch_all Hgpu Hall)
      as [n Hfw].
    destruct (fold_loss_None_sum (sub_losses model_loss set_to_list a (trace st) batch_all))
      as (raw & Hraw & Hsum).
    { by apply sub_losses_nonempty. }
    set (n_acc := gradient_accumulation_steps a) in *.
    set (loss := if n_acc >? 1 then (raw / inject_Z n_acc)%Q else raw).
    exists loss, (finish_step a step (backward (add_instances st n) loss) loss).
    split; [|split; [|split; [|split]]].
    + unfold train_step. rewrite Hfw. simpl. rewrite Hraw.
      unfold accumulate, finish_step, is_update_step, modulo. fold n_acc.
      destruct (Z.eqb_spec n_acc 0) as [?|_]; [lia|].
      unfold loss. destruct (n_acc >? 1); simpl; rewrite Hfp; simpl;
        by destruct (_ =? 0).
    + unfold loss. destruct (Z.gtb_spec n_acc 1) as [_|Hle].
      * by rewrite Hsum.
      * replace n_acc with 1 by lia. rewrite Hsum. unfold Qdiv.
        change (/ inject_Z 1)%Q with 1%Q. by rewrite Qmult_1_r.
    + apply finish_step_tr_loss.
    + apply finish_step_trace.
    + apply finish_step_global_step.
  - intros s. apply is_update_step_multiple. lia.
  - intros k. by apply update_step_unique_in_window.
  - intros half step0 batches st0 st1 Hmax Hskip Hloop. split.
    + rewrite (epoch_loop_global_step _ _ _ _ _ _ _ _ Hn Hmax Hskip Hloop). lia.
    + apply epoch_loop_updates_behind in Hloop. unfold updates_behind in Hloop. lia.
Qed.

(** C1 at step 1 of the two-task run, whose window is 2. *)
Lemma gradient_accumulation_window_witness :
  ∃ loss st',
    train_step example_loss example_set_to_list example_args 1
      [stack_fields [example_instance 0]; stack_fields [example_instance 1]]
      example_state = Ok st'
    ∧ (loss == sum_Q (sub_losses example_loss example_set_to_list example_args
                        (trace example_state)
                        [stack_fields [example_instance 0]; stack_fields [example_instance 1]])
               / inject_Z (gradient_accumulation_steps example_args))%Q
    ∧ tr_loss st' = (tr_loss example_state + loss)%Q
    ∧ trace st'
      = trace example_state
        ++ Backward loss :: (if is_update_step example_args 1 then update_events else [])
    ∧ global_step st'
      = global_step example_state + (if is_update_step example_args 1 then 1 else 0).
Proof.
  refine (proj1 (gradient_accumulation_window example_loss example_set_to_list
            example_args 1
            [stack_fields [example_instance 0]; stack_fields [example_instance 1]]
            example_state _ _ _ _ _)).
  - simpl. lia.
  - simpl. lia.
  - reflexivity.
  - done.
  - repeat constructor.
Defined.

(** ** Checkpoint names and resuming *)

(** *** Strings: [split], [str] and [int] *)

Lemma string_app_nil_l (s : string) : "" +:+ s = s.
Proof. reflexivity. Qed.

Lemma string_app_cons (c : ascii) (s1 s2 : string) :
  String c s1 +:+ s2 = String c (s1 +:+ s2).
Proof. reflexivity. Qed.

Lemma string_app_assoc (s1 s2 s3 : string) : (s1 +:+ s2) +:+ s3 = s1 +:+ (s2 +:+ s3).
Proof.
  induction s1 as [|c s1 IH]; [done|].
  rewrite !string_app_cons. by f_equal.
Qed.

Lemma split_nonempty sep s : split sep s ≠ [].
Proof.
  destruct s as [|c s]; simpl; [done|].
  destruct (Ascii.eqb c sep); [done|]. by destruct (split sep s).
Qed.

(** Splitting a string at a separator splits what stands on either side. *)
Lemma split_app_sep sep (p d : string) :
  split sep (p +:+ String sep d) = split sep p ++ split sep d.
Proof.
  induction p as [|c p IH].
  - rewrite string_app_nil_l. simpl. by rewrite Ascii.eqb_refl.
  - rewrite string_app_cons. simpl. rewrite IH. destruct (Ascii.eqb c sep); [done|].
    pose proof (split_nonempty sep p). by destruct (split sep p).
Qed.

Lemma index_last {A} (l : list A) (x : A) : index (l ++ [x]) (-1) = Ok x.
Proof.
  unfold index, norm_index. rewrite length_app. simpl.
  destruct (Z.leb_spec 0 (-1 + Z.of_nat (length l + 1))); [|lia].
  destruct (Z.ltb_spec (-1 + Z.of_nat (length l + 1)) (Z.of_nat (length l + 1))); [|lia].
  simpl. replace (Z.to_nat (-1 + Z.of_nat (length l + 1))) with (length l + 0)%nat by lia.
  by rewrite lookup_app_r, Nat.add_0_r, Nat.sub_diag by lia.
Qed.

Lemma index_head {A} (x : A) (l : list A) : index (x :: l) 0 = Ok x.
Proof.
  unfold index, norm_index. simpl.
  destruct (Z.ltb_spec 0 (Z.pos (Pos.of_succ_nat (length l)))); [done|lia].
Qed.

Section Digits.

Local Open Scope char_scope.

Lemma split_cons_single sep c s :
  Ascii.eqb c sep = false → split sep s = [s] → split sep (String c s) = [String c s].
Proof. intros Hc Hs. cbn [split]. by rewrite Hc, Hs. Qed.

Lemma split_digits sep (d : Decimal.uint) :
  digit_of sep = None →
  split sep (NilEmpty.string_of_uint d) = [NilEmpty.string_of_uint d].
Proof.
  intros Hsep.
  assert (Hne : ∀ c, digit_of c ≠ None → Ascii.eqb c sep = false).
  { intros c Hc. by destruct (Ascii.eqb_spec c sep) as [->|]. }
  induction d; cbn [NilEmpty.string_of_uint]; [done|..];
    (apply split_cons_single; [apply Hne; by vm_compute|done]).
Qed.

Lemma lstrip_digits (d : Decimal.uint) :
  lstrip (NilEmpty.string_of_uint d) = NilEmpty.string_of_uint d.
Proof. by destruct d. Qed.

Lemma rstrip_digits (d : Decimal.uint) :
  rstrip (NilEmpty.string_of_uint d) = NilEmpty.string_of_uint d.
Proof.
  induction d; simpl; [done|..]; rewrite IHd;
    by destruct (NilEmpty.string_of_uint d).
Qed.

Lemma parse_digits_acc (d : Decimal.uint) (p : positive) :
  parse_digits (NilEmpty.string_of_uint d) (Z.pos p) true
  = Some (Z.pos (Pos.of_uint_acc d p)).
Proof.
  revert p. induction d; intros p; [done|..];
    cbn [NilEmpty.string_of_uint parse_digits Pos.of_uint_acc];
    match goal with
    | |- context [digit_of ?c] =>
        let v := eval vm_compute in (digit_of c) in change (digit_of c) with v
    end; cbv iota;
    rewrite <- IHd; f_equal; lia.
Qed.

Lemma parse_digits_zero (d : Decimal.uint) (b : bool) :
  d ≠ Decimal.Nil ∨ b = true →
  parse_digits (NilEmpty.string_of_uint d) 0 b = Some (Z.of_N (Pos.of_uint d)).
Proof.
  revert b. induction d; intros b Hb.
  - destruct Hb as [?| ->]; done.
  - cbn [NilEmpty.string_of_uint parse_digits Pos.of_uint].
    change (digit_of "0") with (Some 0). cbv iota.
    change (10 * 0 + 0) with 0. apply IHd. by right.
  - apply (parse_digits_acc d 1).
  - apply (parse_digits_acc d 2).
  - apply (parse_digits_acc d 3).
  - apply (parse_digits_acc d 4).
  - apply (parse_digits_acc d 5).
  - apply (parse_digits_acc d 6).
  - apply (parse_digits_acc d 7).
  - apply (parse_digits_acc d 8).
  - apply (parse_digits_acc d 9).
Qed.

End Digits.

(** The decimal digits of a non-negative integer. *)
Lemma str_nonneg (z : Z) :
  0 ≤ z →
  ∃ d, d ≠ Decimal.Nil ∧ str z = NilEmpty.string_of_uint d ∧ Z.of_N (Pos.of_uint d) = z.
Proof.
  intros Hz. destruct z as [|p|p]; [| |lia].
  - exists (Decimal.D0 Decimal.Nil). done.
  - exists (Pos.to_uint p). pose proof (Unsigned.to_uint_nonnil p) as Hnn.
    split; [done|]. split.
    + unfold str. simpl. unfold NilZero.string_of_uint.
      by destruct (Pos.to_uint p).
    + by rewrite Unsigned.of_to.
Qed.

Lemma int_digits (d : Decimal.uint) :
  d ≠ Decimal.Nil →
  int (NilEmpty.string_of_uint d) = Ok (Z.of_N (Pos.of_uint d)).
Proof.
  intros Hd. pose proof (parse_digits_zero d false (or_introl Hd)) as Hp.
  unfold int, strip. rewrite lstrip_digits, rstrip_digits.
  destruct d; [done|..]; cbn [NilEmpty.string_of_uint] in *;
    cbv beta iota zeta; by rewrite Hp.
Qed.

(** [int] reads back what [str] prints. *)
Lemma int_str (z : Z) : 0 ≤ z → int (str z) = Ok z.
Proof.
  intros Hz. destruct (str_nonneg z Hz) as (d & Hd & -> & Hval).
  rewrite int_digits by done. by rewrite Hval.
Qed.

Lemma split_str sep (z : Z) :
  0 ≤ z → digit_of sep = None → split sep (str z) = [str z].
Proof.
  intros Hz Hsep. destruct (str_nonneg z Hz) as (d & _ & -> & _).
  by apply split_digits.
Qed.

(** A checkpoint's directory ends in [-<global_step>]. *)
Lemma checkpoint_dir_suffix (a : args) (gs : Z) :
  ∃ p, checkpoint_dir a gs = p +:+ String "-" (str gs).
Proof.
  unfold checkpoint_dir, path_join.
  change ("checkpoint-" +:+ str gs) with (String "c" ("heckpoint" +:+ String "-" (str gs))).
  cbv iota.
  change (String "c" ("heckpoint" +:+ String "-" (str gs)))
    with ("checkpoint" +:+ String "-" (str gs)).
  destruct (output_dir a) as [|c s] eqn:Hout.
  - by exists "checkpoint"%string.
  - destruct (ends_with_slash (String c s)).
    + exists (String c s +:+ "checkpoint"). by rewrite string_app_assoc.
    + exists (String c s +:+ "/" +:+ "checkpoint"). by rewrite !string_app_assoc.
Qed.

Lemma path_exists_insert (fs : filesystem) (p q : string) (n : node) :
  path_exists fs p = true → path_exists (<[q := n]> fs) p = true.
Proof.
  unfold path_exists. rewrite !bool_decide_eq_true. intros Hp.
  destruct (decide (q = p)) as [->|Hne].
  - rewrite lookup_insert_eq. eauto.
  - by rewrite lookup_insert_ne.
Qed.

Lemma save_model_creates_checkpoint_dir (a : args) (st : train_state) :
  path_exists (files (save_model a st)) (checkpoint_dir a (global_step st)) = true.
Proof.
  unfold save_model. cbn [files]. do 3 apply path_exists_insert.
  destruct (path_exists (files st) _) eqn:Hex; [done|].
  unfold makedirs, path_exists. apply bool_decide_eq_true.
  rewrite lookup_insert_eq. eauto.
Qed.

Lemma resume_parses (a : args) (fs : filesystem) (len : Z) (p : string) (gs : Z) :
  0 ≤ gs →
  model_name_or_path a = p +:+ String "-" (str gs) →
  path_exists fs (model_name_or_path a) = true →
  start_again a = false →
  len / gradient_accumulation_steps a ≠ 0 →
  resume a fs len
  = Ok (gs, gs / (len / gradient_accumulation_steps a),
        gs mod (len / gradient_accumulation_steps a)).
Proof.
  intros Hgs Hpath Hex Hstart Hspe. unfold resume.
  rewrite Hex, Hstart. cbn [negb andb].
  rewrite Hpath, split_app_sep, (split_str "-" gs Hgs eq_refl), index_last.
  cbn [mbind result_bind].
  rewrite (split_str "/" gs Hgs eq_refl), index_head.
  cbn [mbind result_bind]. rewrite (int_str gs Hgs). cbn [mbind result_bind].
  unfold floordiv, modulo.
  destruct (Z.eqb_spec (gradient_accumulation_steps a) 0) as [H0|_].
  { rewrite H0, Z.div_0_r in Hspe. done. }
  cbn [mbind result_bind].
  destruct (Z.eqb_spec (len / gradient_accumulation_steps a) 0) as [?|_]; [done|].
  reflexivity.
Qed.

Section Skip.

Variable model_loss : list event → Z → collated → Q.
Variable set_to_list : list Z → list Z.

Local Abbreviation epoch_loop := (epoch_loop model_loss set_to_list).

Lemma set_steps_to_skip_same st n :
  steps_trained_in_current_epoch st = n → set_steps_to_skip st n = st.
Proof. intros <-. by destruct st. Qed.


End Skip.



(** ** The value [train] returns *)

Section TrainReturn.

Variable model_loss : list event → Z → collated → Q.
Variable set_to_list : list Z → list Z.

Local Abbreviation train_step := (train_step model_loss set_to_list).
Local Abbreviation epoch_loop := (epoch_loop model_loss set_to_list).
Local Abbreviation train_loop := (train_loop model_loss set_to_list).
Local Abbreviation train_loops := (train_loops model_loss set_to_list).
Local Abbreviation train := (train model_loss set_to_list).

Lemma resume_fresh a fs len :
  path_exists fs (model_name_or_path a) && negb (start_again a) = false →
  resume a fs len = Ok (0, 0, 0).
Proof. intros H. unfold resume. by rewrite H. Qed.

Lemma initial_state_updates_behind a fs gs skip :
  updates_behind (initial_state a fs gs skip) = gs.
Proof.
  unfold updates_behind, initial_state. cbn [global_step trace].
  rewrite count_events_app.
  destruct (_ && _); unfold count_events; simpl; lia.
Qed.

(** A fresh run ends with [global_step] equal to the number of updates. *)
Lemma train_loops_fresh_global_step a dl fs st :
  path_exists fs (model_name_or_path a) && negb (start_again a) = false →
  train_loops a dl fs = Ok st →
  global_step st = count_events is_optimizer_step (trace st).
Proof.
  intros Hfresh. unfold RunGlue.train_loops.
  destruct (plan_epochs a dl) as [[t epochs]|e]; [|done]. cbn [mbind result_bind].
  rewrite (resume_fresh a fs _ Hfresh). cbn [mbind result_bind].
  intros Hloop. apply train_loop_updates_behind in Hloop.
  rewrite initial_state_updates_behind in Hloop. unfold updates_behind in Hloop. lia.
Qed.

Lemma epoch_loop_skip_le a half step batches st st' :
  steps_trained_in_current_epoch st ≤ 0 →
  epoch_loop a half step batches st = Ok st' →
  steps_trained_in_current_epoch st' ≤ 0.
Proof.
  revert step st. induction batches as [|raw rest IH]; intros step st Hskip.
  - simpl. by intros [= <-].
  - simpl. destruct (collate_fn a raw) as [batch_all|e]; [|done]. cbn [mbind result_bind].
    destruct (Z.gtb_spec (steps_trained_in_current_epoch st) 0) as [?|_]; [lia|].
    set (st1 := if step =? half then save_model a st else st).
    assert (H1 : steps_trained_in_current_epoch st1 = steps_trained_in_current_epoch st).
    { unfold st1. by destruct (step =? half). }
    destruct (train_step a step batch_all st1) as [st2|e] eqn:Hstep; [|done].
    cbn [mbind result_bind].
    apply train_step_inv in Hstep as (n & l & ->).
    destruct (past_max_steps a _).
    + intros [= <-]. simpl. rewrite finish_step_skip. lia.
    + apply IH. rewrite finish_step_skip. lia.
Qed.

(** When every epoch has fewer raw batches than the window, a run without
    a cap never updates. *)
Lemma train_loop_short_epochs a dl epochs st st' :
  1 ≤ gradient_accumulation_steps a →
  max_steps a ≤ 0 →
  (∀ e, Z.of_nat (length (dl_batches dl e)) < gradient_accumulation_steps a) →
  steps_trained_in_current_epoch st ≤ 0 →
  train_loop a dl epochs st = Ok st' →
  global_step st' = global_step st.
Proof.
  intros Hn Hmax Hshort. revert st. induction epochs as [|epoch rest IH]; intros st Hskip.
  - simpl. by intros [= <-].
  - simpl.
    set (st0 := set_all_losses (add_event (if String.eqb _ _ then _ else _) ZeroGrad) []).
    assert (H0 : global_step st0 = global_step st
                 ∧ steps_trained_in_current_epoch st0 = steps_trained_in_current_epoch st).
    { unfold st0. by destruct (String.eqb _ _). }
    destruct H0 as [Hgs0 Hskip0].
    destruct (epoch_loop a _ 0 _ st0) as [st1|e] eqn:Hep; [|done]. cbn [mbind result_bind].
    assert (Hskip1 : steps_trained_in_current_epoch st1 ≤ 0).
    { apply (epoch_loop_skip_le _ _ _ _ _ _ ltac:(rewrite Hskip0; lia) Hep). }
    apply epoch_loop_global_step in Hep; [|done|done|rewrite Hskip0; lia].
    rewrite Z.add_0_l in Hep.
    rewrite (Z.div_small (Z.of_nat _)) in Hep by (specialize (Hshort epoch); lia).
    change (0 / gradient_accumulation_steps a) with 0 in Hep.
    set (st2 := if in_first_process a then end_of_epoch a epoch st1 else st1).
    assert (H2 : global_step st2 = global_step st1
                 ∧ steps_trained_in_current_epoch st2 = steps_trained_in_current_epoch st1).
    { unfold st2. by destruct (in_first_process a). }
    destruct H2 as [Hgs2 Hskip2].
    unfold past_max_steps. destruct (Z.gtb_spec (max_steps a) 0) as [?|_]; [lia|].
    cbn [andb]. intros H. apply IH in H; lia.
Qed.

End TrainReturn.

(** C10.  In a run that resumes no checkpoint, [global_step] at the end of
    the loops is the number of optimizer steps taken.  If there was none,
    [global_step] is 0 and the return of [train] raises
    [ZeroDivisionError]; so when [train] returns, at least one optimizer
    step was taken.  A loader that yields fewer raw batches per epoch than
    the accumulation window (with no cap on the steps) is such a run. *)
Theorem train_returns_only_after_an_update
    (model_loss : list event → Z → collated → Q) (set_to_list : list Z → list Z)
    (a : args) (dl : dataloader) (fs : filesystem) :
  path_exists fs (model_name_or_path a) && negb (start_again a) = false →
  (∀ st, train_loops model_loss set_to_list a dl fs = Ok st →
         count_events is_optimizer_step (trace st) = 0 →
         global_step st = 0
         ∧ train_return st = Raise ZeroDivisionError
         ∧ train model_loss set_to_list a dl fs = Raise ZeroDivisionError)
  ∧ (∀ r, train model_loss set_to_list a dl fs = Ok r →
          ∃ st, train_loops model_loss set_to_list a dl fs = Ok st
                ∧ r.1 = global_step st
                ∧ global_step st = count_events is_optimizer_step (trace st)
                ∧ 1 ≤ count_events is_optimizer_step (trace st))
  ∧ (1 ≤ gradient_accumulation_steps a →
     max_steps a ≤ 0 →
     (∀ e, Z.of_nat (length (dl_batches dl e)) < gradient_accumulation_steps a) →
     ∀ st, train_loops model_loss set_to_list a dl fs = Ok st →
           count_events is_optimizer_step (trace st) = 0
           ∧ train model_loss set_to_list a dl fs = Raise ZeroDivisionError).
Proof.
  intros Hfresh.
  assert (Hzero : ∀ st, train_loops model_loss set_to_list a dl fs = Ok st →
            global_step st = 0 →
            train_return st = Raise ZeroDivisionError
            ∧ train model_loss set_to_list a dl fs = Raise ZeroDivisionError).
  { intros st Hloops H0. unfold train. rewrite Hloops. cbn [mbind result_bind].
    unfold train_return. by rewrite H0. }
  split; [|split].
  - intros st Hloops Hcount.
    pose proof (train_loops_fresh_global_step _ _ _ _ _ _ Hfresh Hloops) as Hgs.
    split; [lia|]. apply Hzero; [done|lia].
  - intros r Hret. unfold train in Hret.
    destruct (train_loops model_loss set_to_list a dl fs) as [st|e] eqn:Hloops; [|done].
    cbn [mbind result_bind] in Hret. unfold train_return in Hret.
    pose proof (train_loops_fresh_global_step _ _ _ _ _ _ Hfresh Hloops) as Hgs.
    destruct (Z.eqb_spec (global_step st) 0) as [?|Hne]; [done|].
    injection Hret as <-. exists st. split; [done|]. split; [done|]. split; [done|].
    unfold count_events in *. lia.
  - intros Hn Hmax Hshort st Hloops.
    pose proof (train_loops_fresh_global_step _ _ _ _ _ _ Hfresh Hloops) as Hgs.
    assert (H0 : global_step st = 0).
    { unfold train_loops in Hloops.
      destruct (plan_epochs a dl) as [[t epochs]|e]; [|done].
      cbn [mbind result_bind] in Hloops.
      rewrite (resume_fresh a fs _ Hfresh) in Hloops. cbn [mbind result_bind] in Hloops.
      apply train_loop_short_epochs in Hloops; try done. }
    split; [lia|]. by apply (Hzero st).
Qed.

(** C10 for a loader of one batch per epoch and a window of 2. *)
Lemma train_returns_only_after_an_update_witness :
  train example_loss example_set_to_list example_args short_dataloader ∅
  = Raise ZeroDivisionError.
Proof.
  destruct (train_returns_only_after_an_update example_loss example_set_to_list
              example_args short_dataloader ∅) as (_ & _ & H).
  - reflexivity.
  - destruct (train_loops example_loss example_set_to_list example_args short_dataloader ∅)
      as [st|e] eqn:Hloops.
    + apply (H ltac:(simpl; lia) ltac:(simpl; lia) ltac:(intros; simpl; lia) st eq_refl).
    + vm_compute in Hloops. discriminate.
Defined.

(** ** The cap on optimizer steps *)

Lemma past_max_steps_spec (a : args) (gs : Z) :
  past_max_steps a gs = true ↔ 0 < max_steps a ∧ max_steps a < gs.
Proof.
  unfold past_max_steps. rewrite andb_true_iff.
  destruct (Z.gtb_spec (max_steps a) 0), (Z.gtb_spec gs (max_steps a)); intuition (try lia; done).
Qed.

Section Capped.

Variable model_loss : list event → Z → collated → Q.
Variable set_to_list : list Z → list Z.

Local Abbreviation train_step := (train_step model_loss set_to_list).
Local Abbreviation epoch_loop := (epoch_loop model_loss set_to_list).
Local Abbreviation train_loop := (train_loop model_loss set_to_list).
Local Abbreviation train_loops := (train_loops model_loss set_to_list).

(** The multiples of the window among [n] step numbers from [step] on. *)
Lemma updates_in_range_nonneg a step n :
  1 ≤ gradient_accumulation_steps a → 0 ≤ n →
  0 ≤ (step + n) / gradient_accumulation_steps a - step / gradient_accumulation_steps a.
Proof.
  intros Hn Hlen.
  pose proof (Z.div_le_mono step (step + n) (gradient_accumulation_steps a)). lia.
Qed.

(** Under a cap that is not yet passed, an epoch either stays within the
    cap and makes all its updates, or stops one update past the cap. *)
Lemma epoch_loop_capped a half step batches st st' :
  1 ≤ gradient_accumulation_steps a →
  0 < max_steps a →
  steps_trained_in_current_epoch st ≤ 0 →
  global_step st ≤ max_steps a →
  epoch_loop a half step batches st = Ok st' →
  steps_trained_in_current_epoch st' ≤ 0
  ∧ (global_step st
     + ((step + Z.of_nat (length batches)) / gradient_accumulation_steps a
        - step / gradient_accumulation_steps a) ≤ max_steps a
     ∧ global_step st'
       = global_step st
         + ((step + Z.of_nat (length batches)) / gradient_accumulation_steps a
            - step / gradient_accumulation_steps a)
     ∨ max_steps a
       < global_step st
         + ((step + Z.of_nat (length batches)) / gradient_accumulation_steps a
            - step / gradient_accumulation_steps a)
       ∧ global_step st' = max_steps a + 1).
Proof.
  intros Hn Hmax. revert step st.
  induction batches as [|raw rest IH]; intros step st Hskip Hgs.
  - simpl. intros [= <-]. rewrite Z.add_0_r. split; [done|]. left. lia.
  - simpl RunGlue.epoch_loop.
    destruct (collate_fn a raw) as [batch_all|e]; [|done]. cbn [mbind result_bind].
    destruct (Z.gtb_spec (steps_trained_in_current_epoch st) 0) as [?|_]; [lia|].
    set (st1 := if step =? half then save_model a st else st).
    assert (H1 : global_step st1 = global_step st ∧
                 steps_trained_in_current_epoch st1 = steps_trained_in_current_epoch st).
    { unfold st1. by destruct (step =? half). }
    destruct H1 as [Hgs1 Hskip1].
    destruct (train_step a step batch_all st1) as [st2|e] eqn:Hstep; [|done].
    cbn [mbind result_bind].
    apply train_step_inv in Hstep as (n & l & ->).
    set (st2 := finish_step a step (backward (add_instances st1 n) l) l).
    assert (Hgs2 : global_step st2 = global_step st + (if is_update_step a step then 1 else 0)).
    { unfold st2. by rewrite finish_step_global_step, Hgs1. }
    assert (Hskip2 : steps_trained_in_current_epoch st2 ≤ 0).
    { unfold st2. rewrite finish_step_skip. lia. }
    pose proof (div_succ_update a step Hn) as Hd.
    pose proof (updates_in_range_nonneg a (step + 1) (Z.of_nat (length rest)) Hn ltac:(lia))
      as Hrest.
    intros Hrun. cbn [length].
    replace (step + Z.of_nat (S (length rest))) with (step + 1 + Z.of_nat (length rest))
      by lia.
    destruct (past_max_steps a (global_step st2)) eqn:Hpast.
    + apply past_max_steps_spec in Hpast. injection Hrun as <-.
      cbn [add_event steps_trained_in_current_epoch global_step].
      split; [done|]. right. destruct (is_update_step a step); lia.
    + assert (Hle : global_step st2 ≤ max_steps a).
      { destruct (Z.le_gt_cases (global_step st2) (max_steps a)) as [|Hgt]; [done|].
        assert (past_max_steps a (global_step st2) = true)
          by (apply past_max_steps_spec; lia).
        congruence. }
      apply IH in Hrun; [|done|done].
      destruct Hrun as [Hs H]. split; [done|]. lia.
Qed.

Lemma train_loop_capped a dl epochs st st' (len : Z) :
  1 ≤ gradient_accumulation_steps a →
  0 < max_steps a →
  (∀ e, Z.of_nat (length (dl_batches dl e)) = len) →
  steps_trained_in_current_epoch st ≤ 0 →
  global_step st ≤ max_steps a →
  train_loop a dl epochs st = Ok st' →
  global_step st + Z.of_nat (length epochs) * (len / gradient_accumulation_steps a)
  ≤ max_steps a
  ∧ global_step st'
    = global_step st + Z.of_nat (length epochs) * (len / gradient_accumulation_steps a)
  ∨ max_steps a
    < global_step st + Z.of_nat (length epochs) * (len / gradient_accumulation_steps a)
    ∧ global_step st' = max_steps a + 1.
Proof.
  intros Hn Hmax Hlen. revert st. induction epochs as [|epoch rest IH]; intros st Hskip Hgs.
  - simpl. intros [= <-]. left. lia.
  - cbn [RunGlue.train_loop].
    set (st0 := set_all_losses (add_event (if String.eqb _ _ then _ else _) ZeroGrad) []).
    assert (H0 : global_step st0 = global_step st
                 ∧ steps_trained_in_current_epoch st0 = steps_trained_in_current_epoch st).
    { unfold st0. by destruct (String.eqb _ _). }
    destruct H0 as [Hgs0 Hskip0].
    destruct (epoch_loop a _ 0 _ st0) as [st1|e] eqn:Hep; [|done]. cbn [mbind result_bind].
    apply epoch_loop_capped in Hep; [|done|done|rewrite Hskip0; lia|rewrite Hgs0; lia].
    rewrite Z.add_0_l, Hlen in Hep. change (0 / gradient_accumulation_steps a) with 0 in Hep.
    rewrite Z.sub_0_r, Hgs0 in Hep. destruct Hep as [Hskip1 Hep].
    set (st2 := if in_first_process a then end_of_epoch a epoch st1 else st1).
    assert (H2 : global_step st2 = global_step st1
                 ∧ steps_trained_in_current_epoch st2 = steps_trained_in_current_epoch st1).
    { unfold st2. by destruct (in_first_process a). }
    destruct H2 as [Hgs2 Hskip2].
    assert (Hper : 0 ≤ len / gradient_accumulation_steps a).
    { apply Z.div_pos; [specialize (Hlen 0)|]; lia. }
    intros Hrun. cbn [length]. set (per_epoch := len / gradient_accumulation_steps a) in *.
    assert (Hupd : Z.of_nat (S (length rest)) * per_epoch
                   = per_epoch + Z.of_nat (length rest) * per_epoch) by lia.
    rewrite Hupd.
    destruct (past_max_steps a (global_step st2)) eqn:Hpast.
    + apply past_max_steps_spec in Hpast. injection Hrun as <-. cbn [add_event global_step].
      right. nia.
    + assert (Hle : global_step st2 ≤ max_steps a).
      { destruct (Z.le_gt_cases (global_step st2) (max_steps a)) as [|Hgt]; [done|].
        assert (past_max_steps a (global_step st2) = true)
          by (apply past_max_steps_spec; lia).
        congruence. }
      apply IH in Hrun; [|lia|done]. lia.
Qed.

Lemma int_of_float_inject_Z z : int_of_float (inject_Z z) = z.
Proof. unfold int_of_float. simpl. apply Z.quot_1_r. Qed.

(** A fresh capped run that returns has made one update more than the cap. *)
Lemma train_loops_capped a dl fs st :
  1 ≤ gradient_accumulation_steps a →
  0 < max_steps a →
  (∀ e, Z.of_nat (length (dl_batches dl e)) = dl_len dl) →
  path_exists fs (model_name_or_path a) && negb (start_again a) = false →
  train_loops a dl fs = Ok st →
  global_step st = max_steps a + 1
  ∧ count_events is_optimizer_step (trace st) = max_steps a + 1.
Proof.
  intros Hn Hmax Hlen Hfresh Hloops.
  pose proof (train_loops_fresh_global_step _ _ _ _ _ _ Hfresh Hloops) as Hcount.
  assert (Hgs : global_step st = max_steps a + 1); [|split; [done|by rewrite <- Hcount]].
  unfold RunGlue.train_loops, plan_epochs, floordiv in Hloops.
  destruct (Z.gtb_spec (max_steps a) 0) as [_|?]; [|lia].
  destruct (Z.eqb_spec (gradient_accumulation_steps a) 0) as [?|_]; [lia|].
  cbn [mbind result_bind] in Hloops.
  set (per_epoch := dl_len dl / gradient_accumulation_steps a) in *.
  destruct (Z.eqb_spec per_epoch 0) as [?|Hne]; [done|].
  cbn [mbind result_bind] in Hloops.
  rewrite (resume_fresh a fs _ Hfresh) in Hloops. cbn [mbind result_bind] in Hloops.
  rewrite int_of_float_inject_Z, Z.sub_0_r in Hloops.
  assert (Hper : 0 < per_epoch).
  { assert (0 ≤ per_epoch) by (apply Z.div_pos; [specialize (Hlen 0)|]; lia). lia. }
  apply (train_loop_capped _ _ _ _ _ (dl_len dl)) in Hloops;
    [|done|done|done|simpl; lia|simpl; lia].
  fold per_epoch in Hloops. rewrite length_seqZ in Hloops.
  cbn [initial_state global_step] in Hloops.
  pose proof (Z.div_pos (max_steps a) per_epoch ltac:(lia) Hper).
  pose proof (Z.div_mod (max_steps a) per_epoch ltac:(lia)).
  pose proof (Z.mod_pos_bound (max_steps a) per_epoch Hper).
  rewrite Z2Nat.id in Hloops by lia.
  destruct Hloops as [[Hle _]|[_ Hgt]]; [nia|done].
Qed.

End Capped.

(** C8.  The loops stop only once [global_step] is greater than [max_steps]:
    a fresh run with a cap that returns has taken [max_steps + 1] optimizer
    steps.  With a cap of 1, a window of 1 and three batches per epoch the
    run takes two optimizer steps before it closes its iterators. *)
Theorem max_steps_overshoot :
  (∀ a gs, past_max_steps a gs = true ↔ 0 < max_steps a ∧ max_steps a < gs)
  ∧ (∀ model_loss set_to_list a dl fs st,
        1 ≤ gradient_accumulation_steps a →
        0 < max_steps a →
        (∀ e, Z.of_nat (length (dl_batches dl e)) = dl_len dl) →
        path_exists fs (model_name_or_path a) && negb (start_again a) = false →
        train_loops model_loss set_to_list a dl fs = Ok st →
        global_step st = max_steps a + 1
        ∧ count_events is_optimizer_step (trace st) = max_steps a + 1)
  ∧ max_steps capped_args = 1
  ∧ ∃ st,
      train_loops example_loss example_set_to_list capped_args capped_dataloader ∅ = Ok st
      ∧ global_step st = 2
      ∧ count_events is_optimizer_step (trace st) = 2
      ∧ CloseInEpochIterator ∈ trace st
      ∧ CloseTrainIterator ∈ trace st.
Proof.
  split; [apply past_max_steps_spec|].
  split; [apply train_loops_capped|].
  split; [reflexivity|].
  destruct (train_loops example_loss example_set_to_list capped_args capped_dataloader ∅)
    as [st|e] eqn:Hloops.
  - exists st. split; [done|].
    vm_compute in Hloops. injection Hloops as <-.
    split; [reflexivity|]. split; [reflexivity|].
    split; apply list_elem_of_In; vm_compute; tauto.
  - vm_compute in Hloops. discriminate.
Qed.

(** ** The start of [main] and [evaluate] *)

Lemma check_task_names_no_exit known names :
  check_task_names known names ≠ Raise (SystemExit 0).
Proof.
  induction names as [|n rest IH]; simpl; [done|]. by destruct (known !! n).
Qed.

(** The already-finished guard fires on [results.csv] only. *)
Lemma main_startup_exit known a fs :
  main_startup known a fs = Raise (SystemExit 0) →
  isfile fs (path_join (output_dir a) "results.csv") = true.
Proof.
  unfold main_startup.
  destruct (path_exists fs (output_dir a)); cbn [andb].
  - unfold listdir. destruct (fs !! output_dir a) as [[|c]|]; cbn [mbind result_bind]; try done;
      (destruct (negb _ && do_train a && negb _); [done|]);
      (destruct (isfile fs _); [done|]); intros H; by apply check_task_names_no_exit in H.
  - cbn [mbind result_bind].
    destruct (isfile fs _); [done|]. intros H; by apply check_task_names_no_exit in H.
Qed.

(** C5.  [main] where an earlier run left [results.json] in the output
    directory: the file is there, an evaluation-only invocation passes the
    startup checks and goes on, and a training invocation fails on the
    populated output directory.  The guard exits only on [results.csv]. *)
Theorem already_done_guard_misses_results_json :
  isfile finished_fs (results_file eval_only_args) = true
  ∧ main_startup example_processors eval_only_args finished_fs = Ok ()
  ∧ (∃ msg, main_startup example_processors example_args finished_fs
            = Raise (ValueError msg))
  ∧ (∀ known a fs,
        main_startup known a fs = Raise (SystemExit 0) →
        isfile fs (path_join (output_dir a) "results.csv") = true).
Proof.
  split; [vm_compute; reflexivity|].
  split; [vm_compute; reflexivity|].
  split; [eexists; vm_compute; reflexivity|].
  apply main_startup_exit.
Qed.

Section Evaluate.

Variable processors : gmap string processor.
Variable output_modes : gmap string string.
Variable convert_examples_to_features :
  list input_example → list string → Z → string → string → result (list input_features).
Variable eval_metrics : string → Z → list input_features → result (gmap string Q).

Local Abbreviation evaluate_one :=
  (evaluate_one processors output_modes convert_examples_to_features eval_metrics).
Local Abbreviation evaluate :=
  (evaluate processors output_modes convert_examples_to_features eval_metrics).

Lemma evaluate_one_inv a prefix i eval_task dir results st results' st' :
  evaluate_one a prefix i eval_task dir results st = Ok (results', st') →
  ∃ num_labels,
    full_results st' = full_results st
    ∧ passes st' = passes st ++ [{| pass_task := eval_task; pass_output_dir := dir;
                                    pass_num_labels := num_labels |}]
    ∧ eval_task_var st' = Some eval_task.
Proof.
  unfold RunGlue.evaluate_one.
  destruct (output_modes !! eval_task); [|done]. cbn [mbind result_bind].
  destruct (index (task_list a) i); [|done]. cbn [mbind result_bind].
  destruct (index (data_dir_list a) i); [|done]. cbn [mbind result_bind].
  destruct (load_and_cache_examples _ _ _ _ _ _ _ _ _) as [[dataset fs]|]; [|done].
  cbn [mbind result_bind].
  destruct (_ <=? 0); [done|].
  destruct dataset; [done|].
  destruct (list_index _ _); [|done]. cbn [mbind result_bind].
  destruct (index (num_label_list a) _) as [nl|]; [|done]. cbn [mbind result_bind].
  destruct (eval_metrics _ _ _); [|done]. cbn [mbind result_bind].
  intros [= <- <-]. by exists nl.
Qed.

(** With MNLI as the only task, an evaluation that returns has run one
    pass, reported to the output directory itself, and its results hold
    the one key [mnli]. *)
Lemma evaluate_mnli_only a fs prefix st :
  task_names a = ["mnli"%string] →
  evaluate a fs prefix = Ok st →
  ∃ results num_labels,
    full_results st = {["mnli"%string := results]}
    ∧ passes st = [{| pass_task := "mnli"; pass_output_dir := output_dir a;
                      pass_num_labels := num_labels |}].
Proof.
  intros Htasks. unfold RunGlue.evaluate. rewrite Htasks.
  cbn [evaluate_tasks]. change (zip _ _) with [("mnli"%string, output_dir a)].
  cbn [evaluate_pairs].
  destruct (evaluate_one a prefix 0 "mnli" (output_dir a) ∅ _) as [[results st1]|] eqn:Hone;
    [|done].
  cbn [mbind result_bind].
  apply evaluate_one_inv in Hone as (nl & Hfull & Hpasses & Hvar).
  rewrite Hvar. intros [= <-]. exists results, nl. cbn [full_results passes].
  rewrite Hfull, Hpasses. done.
Qed.

End Evaluate.

(** C6.  [evaluate] on MNLI: the task-name tuple has one element and the
    output-directory tuple two, so their [zip] is the one pair of [mnli] and
    the output directory; an evaluation of MNLI alone that returns has run
    one pass and its results hold the one key [mnli]. *)
Theorem evaluate_mnli_runs_one_pass :
  (∀ a, zip (eval_task_names "mnli") (eval_outputs_dirs a "mnli")
        = [("mnli"%string, output_dir a)])
  ∧ (∀ a, eval_outputs_dirs a "mnli" = [output_dir a; output_dir a +:+ "-MM"])
  ∧ (∀ processors output_modes convert_examples_to_features eval_metrics a fs prefix st,
        task_names a = ["mnli"%string] →
        evaluate processors output_modes convert_examples_to_features eval_metrics
          a fs prefix = Ok st →
        dom (full_results st) = {["mnli"%string]}
        ∧ pass_output_dir <$> passes st = [output_dir a])
  ∧ ∃ st,
      evaluate example_processors example_output_modes example_convert example_metrics
        mnli_args ∅ "" = Ok st
      ∧ dom (full_results st) = {["mnli"%string]}
      ∧ full_results st !! "mnli-mm"%string = None
      ∧ passes st = [{| pass_task := "mnli"; pass_output_dir := "out"; pass_num_labels := 3 |}].
Proof.
  split; [done|]. split; [done|]. split.
  - intros ps oms conv em a fs prefix st Htasks Heval.
    destruct (evaluate_mnli_only _ _ _ _ _ _ _ _ Htasks Heval) as (results & nl & -> & ->).
    split; [apply dom_singleton_L|done].
  - destruct (evaluate example_processors example_output_modes example_convert example_metrics
                mnli_args ∅ "") as [st|e] eqn:Heval.
    + exists st. split; [done|].
      destruct (evaluate_mnli_only _ _ _ _ mnli_args _ _ _ eq_refl Heval)
        as (results & nl & Hfull & _).
      split; [rewrite Hfull; apply dom_singleton_L|].
      split; [rewrite Hfull; by apply lookup_singleton_ne|].
      vm_compute in Heval. injection Heval as <-. reflexivity.
    + vm_compute in Heval. discriminate.
Qed.

(** ** The batch type and the feature cache *)

Section BatchType.

Variable model_loss : list event → Z → collated → Q.
Variable set_to_list : list Z → list Z.

Local Abbreviation forward_batch := (forward_batch model_loss set_to_list).
Local Abbreviation train_step := (train_step model_loss set_to_list).
Local Abbreviation epoch_loop := (epoch_loop model_loss set_to_list).
Local Abbreviation train_loop := (train_loop model_loss set_to_list).
Local Abbreviation train_loops := (train_loops model_loss set_to_list).
Local Abbreviation train := (train model_loss set_to_list).






End BatchType.



Section Cache.

Variable processors : gmap string processor.
Variable output_modes : gmap string string.
Variable convert_examples_to_features :
  list input_example → list string → Z → string → string → result (list input_features).

Local Abbreviation load_and_cache_examples :=
  (load_and_cache_examples processors output_modes convert_examples_to_features).
Local Abbreviation make_features := (make_features convert_examples_to_features).
Local Abbreviation lookup_task := (lookup_task processors output_modes).

(** C9, as amended.  For a known task, with the cache file named after the
    split, the last component of the model path, the maximal sequence
    length and the task: if the file exists and [overwrite_cache] is off,
    the features are those loaded from it and nothing is written;
    otherwise they are made anew from the source examples and the first
    process (rank -1 or 0) writes them to the file, other processes leave
    the file system as it is; a failure to make them is the failure of the
    call. *)
Theorem load_and_cache_examples_cache_policy
    (a : args) (fs : filesystem) (task data_dir : string) (evaluate shorten : bool)
    (p : processor) (output_mode cached_file : string) :
  lookup_task task = Ok (p, output_mode) →
  cached_features_file a task data_dir evaluate = Ok cached_file →
  is_known_output_mode output_mode = true →
  (path_exists fs cached_file && negb (overwrite_cache a) = true →
     load_and_cache_examples a fs task data_dir evaluate shorten
     = (features ← torch_load fs cached_file; Ok (features, fs)))
  ∧ (path_exists fs cached_file && negb (overwrite_cache a) = false →
     (∀ features,
        make_features a p output_mode task data_dir evaluate shorten = Ok features →
        load_and_cache_examples a fs task data_dir evaluate shorten
        = Ok (features,
              if in_first_process a then <[cached_file := File (Some features)]> fs else fs))
     ∧ (∀ e,
          make_features a p output_mode task data_dir evaluate shorten = Raise e →
          load_and_cache_examples a fs task data_dir evaluate shorten = Raise e))
  ∧ (∃ model_id,
        index (List.filter (λ s, negb (String.eqb s "")) (split "/" (model_name_or_path a))) (-1)
        = Ok model_id
        ∧ cached_file
          = path_join data_dir
              ("cached_" +:+ (if evaluate then "dev" else "train") +:+ "_" +:+ model_id
               +:+ "_" +:+ str (max_seq_length a) +:+ "_" +:+ task)).
Proof.
  intros Hlookup Hfile Hmode.
  split; [|split].
  - intros Hhit. unfold RunGlue.load_and_cache_examples.
    rewrite Hlookup. cbn [mbind result_bind]. rewrite Hfile. cbn [mbind result_bind].
    rewrite Hhit. destruct (torch_load fs cached_file) as [features|e]; [|done].
    cbn [mbind result_bind]. by rewrite Hmode.
  - intros Hmiss. split.
    + intros features Hmake. unfold RunGlue.load_and_cache_examples.
      rewrite Hlookup. cbn [mbind result_bind]. rewrite Hfile. cbn [mbind result_bind].
      rewrite Hmiss. unfold create_features. rewrite Hmake. cbn [mbind result_bind].
      by rewrite Hmode.
    + intros e Hmake. unfold RunGlue.load_and_cache_examples.
      rewrite Hlookup. cbn [mbind result_bind]. rewrite Hfile. cbn [mbind result_bind].
      rewrite Hmiss. unfold create_features. by rewrite Hmake.
  - unfold cached_features_file in Hfile.
    destruct (index _ (-1)) as [model_id|e]; [|done].
    cbn [mbind result_bind] in Hfile. injection Hfile as <-. by exists model_id.
Qed.

End Cache.

(** C9 for the training set of RTE with no cache file yet. *)
Lemma load_and_cache_examples_cache_policy_witness :
  load_and_cache_examples example_processors example_output_modes example_convert
    example_args ∅ "rte" "data/RTE" false false
  = Ok ([example_features],
        <["data/RTE/cached_train_roberta-large_128_rte"%string
            := File (Some [example_features])]> ∅).
Proof.
  refine (proj1 (proj1 (proj2 (load_and_cache_examples_cache_policy
            example_processors example_output_modes example_convert
            example_args ∅ "rte" "data/RTE" false false rte_processor
            "classification" "data/RTE/cached_train_roberta-large_128_rte" _ _ _)) _)
            [example_features] _).
  - vm_compute. reflexivity.
  - vm_compute. reflexivity.
  - reflexivity.
  - vm_compute. reflexivity.
  - vm_compute. reflexivity.
Defined.

(** C9, counterexample.  A process of rank 1 with [overwrite_cache] set
    makes the features anew and returns them, and the cache file is still
    absent afterwards. *)
Lemma cache_not_written_counterexample :
  path_exists ∅ "data/RTE/cached_train_roberta-large_128_rte" && negb (overwrite_cache rank1_args)
  = false
  ∧ cached_features_file rank1_args "rte" "data/RTE" false
    = Ok "data/RTE/cached_train_roberta-large_128_rte"%string
  ∧ ∃ features fs',
      load_and_cache_examples example_processors example_output_modes example_convert
        rank1_args ∅ "rte" "data/RTE" false false = Ok (features, fs')
      ∧ fs' !! "data/RTE/cached_train_roberta-large_128_rte"%string = None.
Proof.
  split; [vm_compute; reflexivity|]. split; [vm_compute; reflexivity|].
  eexists _, ∅. split; [vm_compute; reflexivity|]. apply lookup_empty.
Qed.

(** ** More on the batch assembler *)

Lemma norm_index_out_of_range (len : nat) (i : Z) :
  ¬ (- Z.of_nat len ≤ i < Z.of_nat len) → norm_index len i = Raise IndexError.
Proof.
  intros Hout. unfold norm_index.
  destruct (Z.ltb_spec i 0).
  - destruct (Z.leb_spec 0 (i + Z.of_nat len)); [lia|done].
  - destruct (Z.leb_spec 0 i); [|lia].
    destruct (Z.ltb_spec i (Z.of_nat len)); [lia|done].
Qed.

Lemma norm_index_bound (len : nat) (i : Z) (j : nat) :
  norm_index len i = Ok j → (j < len)%nat.
Proof.
  unfold norm_index.
  destruct (i <? 0);
    [destruct (Z.leb_spec 0 (i + Z.of_nat len)), (Z.ltb_spec (i + Z.of_nat len) (Z.of_nat len))
    |destruct (Z.leb_spec 0 i), (Z.ltb_spec i (Z.of_nat len))];
    simpl; intros [= <-]; lia.
Qed.

Lemma group_by_task_out_of_range (batch : list instance) (groups : list (list instance)) :
  Exists (λ i, ¬ (- Z.of_nat (length groups) ≤ task_index i < Z.of_nat (length groups))) batch →
  group_by_task batch groups = Raise IndexError.
Proof.
  revert groups. induction batch as [|inst rest IH]; intros groups Hex.
  - by apply Exists_nil in Hex.
  - cbn [group_by_task].
    destruct (norm_index (length groups) (task_index inst)) as [j|e] eqn:Hj.
    + cbn [mbind result_bind]. apply IH. rewrite length_alter.
      apply Exists_cons in Hex as [Hhead|Htail]; [|done].
      rewrite norm_index_out_of_range in Hj by done. done.
    + cbn [mbind result_bind]. unfold norm_index in Hj.
      by destruct (_ && _); [|injection Hj as <-].
Qed.

(** X1.  A raw batch that holds an instance whose task index is not a
    valid Python index into the list of tasks (neither in [0, n) nor in
    [-n, 0)) makes [collate_func] raise [IndexError], wherever the
    instance stands in the batch. *)
Theorem collate_func_index_error (a : args) (batch : list instance) :
  Exists (λ i, ¬ (- Z.of_nat (length (data_dir_list a)) ≤ task_index i
                  < Z.of_nat (length (data_dir_list a)))) batch →
  collate_func a batch = Raise IndexError.
Proof.
  intros Hex. unfold collate_func.
  rewrite group_by_task_out_of_range; [done|]. by rewrite length_replicate.
Qed.

Lemma collate_func_index_error_witness :
  collate_func example_args [example_instance 0; example_instance 2] = Raise IndexError.
Proof.
  apply collate_func_index_error. apply Exists_cons. right. apply Exists_cons. left.
  simpl. lia.
Defined.

(** The sub-batches of a raw batch with valid task indices. *)
Lemma collate_func_groups (a : args) (batch : list instance) :
  batch ≠ [] →
  Forall (λ i, 0 ≤ task_index i < Z.of_nat (length (data_dir_list a))) batch →
  collate_func a batch
  = Ok (stack_fields <$>
          filter (λ g, g ≠ [])
            (instances_of_task batch <$> seq 0 (length (data_dir_list a)))).
Proof.
  intros Hne Hrange. set (n := length (data_dir_list a)).
  set (all_groups := instances_of_task batch <$> seq 0 n).
  unfold collate_func.
  rewrite group_by_task_spec by (by rewrite length_replicate).
  rewrite groups_of_batch. fold n. fold all_groups. csimpl.
  assert (Hsome : ∃ g, g ∈ all_groups ∧ g ≠ []).
  { destruct batch as [|i l]; [done|]. inversion Hrange as [|? ? Hi _]; subst.
    exists (instances_of_task (i :: l) (Z.to_nat (task_index i))). split.
    - unfold all_groups. apply list_elem_of_fmap. eexists. split; [done|].
      apply elem_of_seq. lia.
    - unfold instances_of_task. rewrite filter_cons_True by lia. done. }
  destruct Hsome as (g & Hg & Hgne).
  destruct (Nat.eqb_spec (sum_list (length <$> all_groups)) 0) as [H0|_].
  { by destruct (sum_list_lengths_pos all_groups g). }
  rewrite (list_filter_iff (λ g, length g ≠ 0%nat) (λ g, g ≠ []))
    by (intros [|? ?]; simpl; split; congruence).
  case_bool_decide as Hzero.
  - apply mapM_default_collate. apply Forall_forall. intros g' Hg'.
    by apply list_elem_of_filter in Hg' as [? _].
  - assert (Hall : Forall (λ g, g ≠ []) all_groups).
    { apply Forall_forall. intros g' Hg' ->. apply Hzero.
      apply list_elem_of_fmap. by exists []. }
    rewrite mapM_default_collate by done. f_equal. f_equal. symmetry.
    clear -Hall. induction Hall as [|g gs Hg _ IH]; [done|].
    rewrite filter_cons_True by done. by rewrite IH.
Qed.

Lemma sub_batch_tasks_of_groups (batch : list instance) (m n : nat) (t : Z) :
  t ∈ omap sub_batch_task
        (stack_fields <$> filter (λ g, g ≠ []) (instances_of_task batch <$> seq m n))
  ↔ Z.of_nat m ≤ t < Z.of_nat (m + n) ∧ t ∈ task_index <$> batch.
Proof.
  revert m. induction n as [|n IH]; intros m.
  - simpl. split; [by intros ?%elem_of_nil|lia].
  - cbn [seq fmap list_fmap].
    assert (Hhom := instances_of_task_homogeneous batch m).
    destruct (instances_of_task batch m) as [|i g] eqn:Hg.
    + rewrite filter_cons_False by (intros Hne; by apply Hne).
      rewrite IH. split; [intros [? ?]; split; [lia|done]|].
      intros [Hr Hin]. split; [|done].
      destruct (decide (t = Z.of_nat m)) as [->|]; [|lia].
      exfalso. apply list_elem_of_fmap in Hin as (x & Hx & Hxin).
      assert (x ∈ instances_of_task batch m)
        by (unfold instances_of_task; apply list_elem_of_filter; done).
      rewrite Hg in *. by apply elem_of_nil in H.
    + rewrite filter_cons_True by done. csimpl.
      inversion Hhom as [|? ? Hi _]; subst. rewrite Hi.
      rewrite elem_of_cons, IH. split.
      * intros [->|[Hr Hin]]; [|split; [lia|done]].
        split; [lia|]. apply list_elem_of_fmap. exists i. split; [done|].
        assert (Hin : i ∈ instances_of_task batch m) by (rewrite Hg; left).
        unfold instances_of_task in Hin. by apply list_elem_of_filter in Hin as [_ ?].
      * intros [Hr Hin]. destruct (decide (t = Z.of_nat m)); [by left|right].
        split; [lia|done].
Qed.

Lemma strongly_sorted_lt_NoDup (l : list Z) : StronglySorted Z.lt l → NoDup l.
Proof.
  induction 1 as [|x l _ IH Hx]; constructor; [|done].
  intros Hin. rewrite Forall_forall in Hx. specialize (Hx x Hin). lia.
Qed.

Lemma sub_batch_tasks_length (groups : list (list instance)) :
  Forall (λ g, g ≠ []) groups →
  length (omap sub_batch_task (stack_fields <$> groups)) = length groups.
Proof.
  induction 1 as [|g gs Hg _ IH]; [done|].
  destruct g as [|i g]; [done|]. csimpl. by rewrite IH.
Qed.

(** X2.  In split mode the sub-batches are one per task present in the raw
    batch: for a non-empty raw batch with valid task indices, the tasks of
    the returned sub-batches are exactly the task indices that occur in the
    batch, each once, and there are at least one and at most as many
    sub-batches as configured tasks. *)
Theorem collate_func_one_sub_batch_per_task (a : args) (batch : list instance) :
  batch ≠ [] →
  Forall (λ i, 0 ≤ task_index i < Z.of_nat (length (data_dir_list a))) batch →
  ∃ subs,
    collate_func a batch = Ok subs
    ∧ (∀ t, t ∈ omap sub_batch_task subs ↔ t ∈ task_index <$> batch)
    ∧ NoDup (omap sub_batch_task subs)
    ∧ length (omap sub_batch_task subs) = length subs
    ∧ (1 ≤ length subs ≤ length (data_dir_list a))%nat.
Proof.
  intros Hne Hrange. eexists. split; [by apply collate_func_groups|].
  set (n := length (data_dir_list a)).
  set (groups := filter (λ g, g ≠ []) (instances_of_task batch <$> seq 0 n)).
  assert (Hgroups : Forall (λ g, g ≠ []) groups).
  { apply Forall_forall. intros g Hg. by apply list_elem_of_filter in Hg as [? _]. }
  assert (Hmem : ∀ t, t ∈ omap sub_batch_task (stack_fields <$> groups)
                      ↔ t ∈ task_index <$> batch).
  { intros t. unfold groups. rewrite sub_batch_tasks_of_groups. split; [by intros [_ ?]|].
    intros Hin. split; [|done].
    apply list_elem_of_fmap in Hin as (i & -> & Hi).
    rewrite Forall_forall in Hrange. specialize (Hrange i Hi). fold n in Hrange. lia. }
  assert (Hlen : length (omap sub_batch_task (stack_fields <$> groups)) = length groups)
    by (by apply sub_batch_tasks_length).
  split; [done|]. split; [|split; [by rewrite length_fmap|]].
  { apply strongly_sorted_lt_NoDup. apply sub_batch_tasks_sorted. }
  rewrite length_fmap. split.
  - destruct batch as [|i l]; [done|].
    assert (Hi : task_index i ∈ omap sub_batch_task (stack_fields <$> groups)).
    { apply Hmem. csimpl. left. }
    rewrite <- Hlen. destruct (omap _ _); [by apply elem_of_nil in Hi|simpl; lia].
  - unfold groups. etrans; [apply length_filter|]. by rewrite length_fmap, length_seq.
Qed.

Lemma collate_func_one_sub_batch_per_task_witness :
  ∃ subs,
    collate_func example_args [example_instance 1; example_instance 1] = Ok subs
    ∧ (∀ t, t ∈ omap sub_batch_task subs
            ↔ t ∈ task_index <$> [example_instance 1; example_instance 1])
    ∧ NoDup (omap sub_batch_task subs)
    ∧ length (omap sub_batch_task subs) = length subs
    ∧ (1 ≤ length subs ≤ length (data_dir_list example_args))%nat.
Proof.
  apply (collate_func_one_sub_batch_per_task example_args
           [example_instance 1; example_instance 1]).
  - done.
  - repeat constructor; simpl; lia.
Defined.

(** ** More on the training loop *)

Section TrainErrors.

Variable model_loss : list event → Z → collated → Q.
Variable set_to_list : list Z → list Z.

Local Abbreviation select_num_labels := (select_num_labels set_to_list).
Local Abbreviation train_step := (train_step model_loss set_to_list).
Local Abbreviation epoch_loop := (epoch_loop model_loss set_to_list).
Local Abbreviation train_loop := (train_loop model_loss set_to_list).
Local Abbreviation train_loops := (train_loops model_loss set_to_list).
Local Abbreviation train := (train model_loss set_to_list).

(** The first step that is not skipped decides the epoch when it fails. *)
Lemma epoch_loop_first_step_fails a half step raw rest batch_all st e :
  collate_fn a raw = Ok batch_all →
  steps_trained_in_current_epoch st ≤ 0 →
  (∀ st1, train_step a step batch_all st1 = Raise e) →
  epoch_loop a half step (raw :: rest) st = Raise e.
Proof.
  intros Hc Hskip Hstep. cbn [RunGlue.epoch_loop]. rewrite Hc. cbn [mbind result_bind].
  destruct (Z.gtb_spec (steps_trained_in_current_epoch st) 0) as [?|_]; [lia|].
  by rewrite Hstep.
Qed.

(** X3.  With more than one GPU, a step on a batch whose first sub-batch
    resolves its label count raises [AttributeError]: [loss.mean()] is
    called while [loss] is still [None].  The epoch loop ends with that
    exception at the first step it does not skip. *)
Theorem train_step_multi_gpu_fails a step b rest st :
  1 < n_gpu a →
  is_ok (select_num_labels a b) = true →
  train_step a step (b :: rest) st
  = Raise (AttributeError "'NoneType' object has no attribute 'mean'")
  ∧ ∀ half raw batches st0,
      collate_fn a raw = Ok (b :: rest) →
      steps_trained_in_current_epoch st0 ≤ 0 →
      epoch_loop a half step (raw :: batches) st0
      = Raise (AttributeError "'NoneType' object has no attribute 'mean'").
Proof.
  intros Hgpu Hlabels.
  assert (Hstep : ∀ st1, train_step a step (b :: rest) st1
            = Raise (AttributeError "'NoneType' object has no attribute 'mean'")).
  { intros st1. unfold RunGlue.train_step. cbn [forward_batch].
    unfold forward_sub_batch.
    destruct (select_num_labels a b) as [nl|]; [|done]. cbn [mbind result_bind].
    destruct (Z.gtb_spec (n_gpu a) 1) as [_|?]; [done|lia]. }
  split; [apply Hstep|].
  intros half raw batches st0 Hc Hskip.
  by apply (epoch_loop_first_step_fails a half step raw batches (b :: rest)).
Qed.

(** X4.  With [fp16] set, a step whose forward pass succeeds raises
    [NameError] for [amp], whose import is commented out; the epoch loop
    ends with it at the first step it does not skip. *)
Theorem train_step_fp16_fails a step batch_all st :
  fp16 a = true →
  n_gpu a ≤ 1 →
  batch_all ≠ [] →
  Forall (λ b, is_ok (select_num_labels a b) = true) batch_all →
  train_step a step batch_all st = Raise (NameError "amp")
  ∧ ∀ half raw batches st0,
      collate_fn a raw = Ok batch_all →
      steps_trained_in_current_epoch st0 ≤ 0 →
      epoch_loop a half step (raw :: batches) st0 = Raise (NameError "amp").
Proof.
  intros Hfp Hgpu Hne Hall.
  assert (Hstep : ∀ st1, train_step a step batch_all st1 = Raise (NameError "amp")).
  { intros st1. unfold RunGlue.train_step.
    destruct (forward_batch_ok model_loss set_to_list a st1 None batch_all Hgpu Hall)
      as [n ->]. cbn [mbind result_bind].
    destruct (fold_loss_None_sum (sub_losses model_loss set_to_list a (trace st1) batch_all))
      as (raw & -> & _); [by apply sub_losses_nonempty|].
    unfold accumulate. destruct (gradient_accumulation_steps a >? 1);
      cbn [mbind result_bind]; by rewrite Hfp. }
  split; [apply Hstep|].
  intros half raw batches st0 Hc Hskip.
  by apply (epoch_loop_first_step_fails a half step raw batches batch_all).
Qed.

(** X5.  [train] divides by the number of optimizer steps per epoch while
    it plans: with an accumulation window of 0, or with a cap on the steps
    and a loader shorter than the window, it raises [ZeroDivisionError]
    before any step, whatever the loader yields and whatever is on disk. *)
Theorem train_zero_division_when_planning a dl fs :
  gradient_accumulation_steps a = 0
  ∨ (0 < max_steps a ∧ dl_len dl / gradient_accumulation_steps a = 0) →
  plan_epochs a dl = Raise ZeroDivisionError
  ∧ train a dl fs = Raise ZeroDivisionError.
Proof.
  intros H.
  assert (Hplan : plan_epochs a dl = Raise ZeroDivisionError).
  { unfold plan_epochs, floordiv. destruct H as [H0|[Hmax Hspe]].
    - rewrite H0. by destruct (max_steps a >? 0).
    - destruct (Z.gtb_spec (max_steps a) 0) as [_|?]; [|lia].
      destruct (gradient_accumulation_steps a =? 0); [done|]. cbn [mbind result_bind].
      by rewrite Hspe. }
  split; [done|]. unfold RunGlue.train, RunGlue.train_loops. by rewrite Hplan.
Qed.

(** X6.  When more steps are to be skipped than the epoch has raw batches,
    the whole epoch is only drawn from the loader: nothing is trained or
    saved, and the steps that are left to skip are carried into the next
    epoch. *)
Theorem epoch_loop_skips_whole_epoch a half step batches st :
  Forall (λ raw, is_ok (collate_fn a raw) = true) batches →
  Z.of_nat (length batches) ≤ steps_trained_in_current_epoch st →
  epoch_loop a half step batches st
  = Ok (set_steps_to_skip st (steps_trained_in_current_epoch st - Z.of_nat (length batches))).
Proof.
  intros Hok. revert step st. induction Hok as [|raw rest Hraw _ IH]; intros step st Hlen.
  - simpl. rewrite Z.sub_0_r. by rewrite set_steps_to_skip_same.
  - cbn [RunGlue.epoch_loop]. destruct (collate_fn a raw); [|done]. cbn [mbind result_bind].
    cbn [length] in Hlen.
    destruct (Z.gtb_spec (steps_trained_in_current_epoch st) 0) as [_|?]; [|lia].
    rewrite IH by (simpl; lia). f_equal. unfold set_steps_to_skip. simpl. f_equal. lia.
Qed.

End TrainErrors.

(** X3 on two GPUs, at the first batch of a run. *)
Lemma train_step_multi_gpu_fails_witness :
  train_step example_loss example_set_to_list multi_gpu_args 0
    [stack_fields [example_instance 0]] example_state
  = Raise (AttributeError "'NoneType' object has no attribute 'mean'").
Proof.
  apply (proj1 (train_step_multi_gpu_fails example_loss example_set_to_list multi_gpu_args 0
                  (stack_fields [example_instance 0]) [] example_state
                  ltac:(simpl; lia) ltac:(vm_compute; reflexivity))).
Defined.

(** X4 with mixed precision switched on, at the first batch of a run. *)
Lemma train_step_fp16_fails_witness :
  train_step example_loss example_set_to_list fp16_args 0
    [stack_fields [example_instance 0]] example_state
  = Raise (NameError "amp").
Proof.
  apply (proj1 (train_step_fp16_fails example_loss example_set_to_list fp16_args 0
                  [stack_fields [example_instance 0]] example_state
                  ltac:(reflexivity) ltac:(simpl; lia) ltac:(discriminate)
                  ltac:(repeat constructor))).
Defined.

(** X5 for an accumulation window of zero. *)
Lemma train_zero_division_when_planning_witness :
  train example_loss example_set_to_list zero_window_args example_dataloader ∅
  = Raise ZeroDivisionError.
Proof.
  apply (proj2 (train_zero_division_when_planning example_loss example_set_to_list
                  zero_window_args example_dataloader ∅ ltac:(left; reflexivity))).
Defined.

(** X6 for an epoch of three batches with five steps still to skip. *)
Lemma epoch_loop_skips_whole_epoch_witness :
  epoch_loop example_loss example_set_to_list example_args 0 0
    (replicate 3 [example_instance 0; example_instance 1])
    (set_steps_to_skip example_state 5)
  = Ok (set_steps_to_skip (set_steps_to_skip example_state 5) (5 - 3)).
Proof.
  apply (epoch_loop_skips_whole_epoch example_loss example_set_to_list example_args 0 0
           (replicate 3 [example_instance 0; example_instance 1])
           (set_steps_to_skip example_state 5)).
  - repeat constructor.
  - simpl. lia.
Defined.

Section TrainInvariants.

Variable model_loss : list event → Z → collated → Q.
Variable set_to_list : list Z → list Z.

Local Abbreviation train_step := (train_step model_loss set_to_list).
Local Abbreviation epoch_loop := (epoch_loop model_loss set_to_list).
Local Abbreviation train_loop := (train_loop model_loss set_to_list).
Local Abbreviation train_loops := (train_loops model_loss set_to_list).
Local Abbreviation train := (train model_loss set_to_list).

Lemma epoch_loop_global_step_bounds a half step batches st st' :
  epoch_loop a half step batches st = Ok st' →
  global_step st ≤ global_step st' ≤ global_step st + Z.of_nat (length batches).
Proof.
  revert step st. induction batches as [|raw rest IH]; intros step st.
  - simpl. intros [= <-]. lia.
  - cbn [RunGlue.epoch_loop length].
    destruct (collate_fn a raw) as [batch_all|e]; [|done]. cbn [mbind result_bind].
    destruct (steps_trained_in_current_epoch st >? 0).
    + intros H. apply IH in H. simpl in H. lia.
    + set (st1 := if step =? half then save_model a st else st).
      assert (H1 : global_step st1 = global_step st).
      { unfold st1. by destruct (step =? half). }
      destruct (train_step a step batch_all st1) as [st2|e] eqn:Hstep; [|done].
      cbn [mbind result_bind].
      apply train_step_inv in Hstep as (n & l & ->).
      pose proof (finish_step_global_step a step st1 n l) as Hgs.
      destruct (past_max_steps a _).
      * intros [= <-]. cbn [add_event global_step].
        destruct (is_update_step a step); lia.
      * intros H. apply IH in H. destruct (is_update_step a step); lia.
Qed.

Lemma train_loop_global_step_le a dl epochs st st' :
  train_loop a dl epochs st = Ok st' → global_step st ≤ global_step st'.
Proof.
  revert st. induction epochs as [|epoch rest IH]; intros st.
  - simpl. intros [= <-]. lia.
  - cbn [RunGlue.train_loop].
    set (st0 := set_all_losses (add_event (if String.eqb _ _ then _ else _) ZeroGrad) []).
    assert (H0 : global_step st0 = global_step st).
    { unfold st0. by destruct (String.eqb _ _). }
    destruct (epoch_loop a _ 0 _ st0) as [st1|e] eqn:Hep; [|done]. cbn [mbind result_bind].
    apply epoch_loop_global_step_bounds in Hep.
    set (st2 := if in_first_process a then end_of_epoch a epoch st1 else st1).
    assert (H2 : global_step st2 = global_step st1).
    { unfold st2. by destruct (in_first_process a). }
    destruct (past_max_steps a _).
    + intros [= <-]. cbn [add_event global_step]. lia.
    + intros H. apply IH in H. lia.
Qed.

(** X7.  [global_step] never goes down.  A run that returns ends at the
    step it started from (0, or the step read from the checkpoint) plus the
    number of optimizer steps it took, and within an epoch the step grows
    by at most one per raw batch. *)
Theorem train_global_step_counts_updates a dl fs gs0 epochs_trained skip st :
  resume a fs (dl_len dl) = Ok (gs0, epochs_trained, skip) →
  train_loops a dl fs = Ok st →
  gs0 ≤ global_step st
  ∧ global_step st = gs0 + count_events is_optimizer_step (trace st)
  ∧ ∀ half step batches st0 st1,
      epoch_loop a half step batches st0 = Ok st1 →
      global_step st0 ≤ global_step st1 ≤ global_step st0 + Z.of_nat (length batches).
Proof.
  intros Hresume Hloops. unfold RunGlue.train_loops in Hloops.
  destruct (plan_epochs a dl) as [[t epochs]|e]; [|done]. cbn [mbind result_bind] in Hloops.
  rewrite Hresume in Hloops. cbn [mbind result_bind] in Hloops.
  split; [|split].
  - apply train_loop_global_step_le in Hloops. by cbn [initial_state global_step] in Hloops.
  - apply train_loop_updates_behind in Hloops.
    rewrite initial_state_updates_behind in Hloops. unfold updates_behind in Hloops. lia.
  - intros half step batches st0 st1. apply epoch_loop_global_step_bounds.
Qed.

(** *** What [train] leaves on disk *)

Lemma isfile_insert_file (fs : filesystem) (p q : string) c :
  p = q ∨ isfile fs p = true → isfile (<[q := File c]> fs) p = true.
Proof.
  unfold isfile. intros [->|Hp].
  - by rewrite lookup_insert_eq.
  - destruct (decide (q = p)) as [->|Hne]; [by rewrite lookup_insert_eq|].
    by rewrite lookup_insert_ne.
Qed.

Lemma save_model_checkpointed a st : checkpointed a (save_model a st).
Proof.
  unfold checkpointed. change (global_step (save_model a st)) with (global_step st).
  split; [apply save_model_creates_checkpoint_dir|]. unfold save_model.
  cbn [files]. split.
  - apply isfile_insert_file. right. apply isfile_insert_file. by left.
  - apply isfile_insert_file. by left.
Qed.

Lemma train_loop_checkpointed a dl epochs st st' :
  in_first_process a = true →
  epochs ≠ [] ∨ checkpointed a st →
  train_loop a dl epochs st = Ok st' →
  checkpointed a st'.
Proof.
  intros Hfirst. revert st. induction epochs as [|epoch rest IH]; intros st Hst.
  - simpl. intros [= <-]. by destruct Hst.
  - cbn [RunGlue.train_loop].
    destruct (epoch_loop a _ 0 _ _) as [st1|e]; [|done]. cbn [mbind result_bind].
    rewrite Hfirst.
    assert (H2 : checkpointed a (end_of_epoch a epoch st1)) by apply save_model_checkpointed.
    destruct (past_max_steps a _).
    + by intros [= <-].
    + apply IH. by right.
Qed.

(** X8.  A fresh run of the first process that returns after at least one
    epoch leaves the checkpoint of its final [global_step] on disk, with
    the optimizer and scheduler states, and a later run whose model path is
    that directory resumes at exactly that step. *)
Theorem train_leaves_resumable_checkpoint a dl fs st :
  in_first_process a = true →
  path_exists fs (model_name_or_path a) && negb (start_again a) = false →
  1 ≤ gradient_accumulation_steps a →
  0 ≤ dl_len dl →
  0 < max_steps a ∨ 1 ≤ int_of_float (num_train_epochs a) →
  train_loops a dl fs = Ok st →
  checkpointed a st
  ∧ ∀ a' len,
      model_name_or_path a' = checkpoint_dir a (global_step st) →
      start_again a' = false →
      len / gradient_accumulation_steps a' ≠ 0 →
      resume a' (files st) len
      = Ok (global_step st,
            global_step st / (len / gradient_accumulation_steps a'),
            global_step st mod (len / gradient_accumulation_steps a')).
Proof.
  intros Hfirst Hfresh Hn Hlen Hepochs Hloops.
  pose proof (train_loops_fresh_global_step _ _ _ _ _ _ Hfresh Hloops) as Hcount.
  assert (Hgs : 0 ≤ global_step st) by (rewrite Hcount; unfold count_events; lia).
  assert (Hck : checkpointed a st).
  { unfold RunGlue.train_loops, plan_epochs, floordiv in Hloops.
    destruct (Z.eqb_spec (gradient_accumulation_steps a) 0) as [?|_]; [lia|].
    set (per_epoch := dl_len dl / gradient_accumulation_steps a) in *.
    assert (Hper : 0 ≤ per_epoch) by (apply Z.div_pos; lia).
    destruct (Z.gtb_spec (max_steps a) 0) as [Hmax|Hmax].
    - cbn [mbind result_bind] in Hloops.
      destruct (Z.eqb_spec per_epoch 0) as [?|Hne]; [done|].
      cbn [mbind result_bind] in Hloops.
      rewrite (resume_fresh a fs _ Hfresh) in Hloops. cbn [mbind result_bind] in Hloops.
      rewrite int_of_float_inject_Z, Z.sub_0_r in Hloops.
      apply train_loop_checkpointed in Hloops; [done|done|]. left.
      pose proof (Z.div_pos (max_steps a) per_epoch ltac:(lia) ltac:(lia)).
      intros Hnil. apply (f_equal length) in Hnil. rewrite length_seqZ in Hnil.
      simpl in Hnil. lia.
    - cbn [mbind result_bind] in Hloops.
      rewrite (resume_fresh a fs _ Hfresh) in Hloops. cbn [mbind result_bind] in Hloops.
      rewrite Z.sub_0_r in Hloops.
      apply train_loop_checkpointed in Hloops; [done|done|]. left.
      intros Hnil. apply (f_equal length) in Hnil. rewrite length_seqZ in Hnil.
      simpl in Hnil. lia. }
  split; [done|]. intros a' len Hpath Hstart Hspe.
  destruct (checkpoint_dir_suffix a (global_step st)) as [p Hp].
  apply (resume_parses a' (files st) len p (global_step st)); try done.
  - by rewrite Hpath.
  - rewrite Hpath. apply Hck.
Qed.

(** *** The checkpoint in the middle of an epoch *)

Lemma epoch_loop_app a half step l1 l2 st :
  max_steps a ≤ 0 →
  epoch_loop a half step (l1 ++ l2) st
  = (st1 ← epoch_loop a half step l1 st;
     epoch_loop a half (step + Z.of_nat (length l1)) l2 st1).
Proof.
  intros Hmax. revert step st. induction l1 as [|raw rest IH]; intros step st.
  - simpl. by rewrite Z.add_0_r.
  - cbn [app RunGlue.epoch_loop length].
    replace (step + Z.of_nat (S (length rest))) with (step + 1 + Z.of_nat (length rest)) by lia.
    destruct (collate_fn a raw) as [batch_all|e]; [|done]. cbn [mbind result_bind].
    destruct (steps_trained_in_current_epoch st >? 0); [apply IH|].
    destruct (train_step a step batch_all _) as [st2|e]; [|done]. cbn [mbind result_bind].
    unfold past_max_steps. destruct (Z.gtb_spec (max_steps a) 0) as [?|_]; [lia|].
    cbn [andb]. apply IH.
Qed.

Lemma epoch_loop_trace_prefix a half step batches st st' :
  epoch_loop a half step batches st = Ok st' → trace st `prefix_of` trace st'.
Proof.
  revert step st. induction batches as [|raw rest IH]; intros step st.
  - simpl. by intros [= <-].
  - cbn [RunGlue.epoch_loop].
    destruct (collate_fn a raw) as [batch_all|e]; [|done]. cbn [mbind result_bind].
    destruct (steps_trained_in_current_epoch st >? 0); [apply IH|].
    set (st1 := if step =? half then save_model a st else st).
    assert (H1 : trace st `prefix_of` trace st1).
    { unfold st1. destruct (step =? half); [|done]. simpl. by apply prefix_app_r. }
    destruct (train_step a step batch_all st1) as [st2|e] eqn:Hstep; [|done].
    cbn [mbind result_bind].
    apply train_step_inv in Hstep as (n & l & ->).
    pose proof (finish_step_trace a step st1 n l) as Htr.
    assert (H2 : trace st `prefix_of`
                 trace (finish_step a step (backward (add_instances st1 n) l) l)).
    { rewrite Htr. etrans; [exact H1|]. by apply prefix_app_r. }
    destruct (past_max_steps a _).
    + intros [= <-]. simpl. etrans; [exact H2|]. by apply prefix_app_r.
    + intros H. apply IH in H. by etrans.
Qed.

(** X9.  In an epoch without a cap and without skipped steps, the
    checkpoint of the middle of the epoch is saved just before the step
    numbered [len(loader) // 2]; its directory is named after the
    [global_step] reached by then, the step the epoch started at plus the
    updates of the first half. *)
Theorem epoch_loop_saves_at_half a half batches st st' :
  1 ≤ gradient_accumulation_steps a →
  max_steps a ≤ 0 →
  steps_trained_in_current_epoch st ≤ 0 →
  0 ≤ half < Z.of_nat (length batches) →
  epoch_loop a half 0 batches st = Ok st' →
  SavePretrained (checkpoint_dir a (global_step st + half / gradient_accumulation_steps a))
  ∈ trace st'.
Proof.
  intros Hn Hmax Hskip Hhalf Hloop.
  rewrite <- (take_drop (Z.to_nat half) batches) in Hloop.
  rewrite epoch_loop_app in Hloop by done.
  destruct (epoch_loop a half 0 (take (Z.to_nat half) batches) st) as [st1|e] eqn:H1; [|done].
  cbn [mbind result_bind] in Hloop.
  rewrite length_take, Nat.min_l, Z2Nat.id in Hloop by lia.
  pose proof (epoch_loop_skip_le _ _ _ _ _ _ _ _ Hskip H1) as Hskip1.
  apply epoch_loop_global_step in H1; [|done|done|done].
  rewrite length_take, Nat.min_l, Z2Nat.id in H1 by lia.
  rewrite Z.add_0_l in H1. change (0 / gradient_accumulation_steps a) with 0 in H1.
  rewrite Z.sub_0_r in H1.
  destruct (drop (Z.to_nat half) batches) as [|raw rest] eqn:Hdrop.
  { apply (f_equal length) in Hdrop. rewrite length_drop in Hdrop. simpl in Hdrop. lia. }
  cbn [RunGlue.epoch_loop] in Hloop.
  destruct (collate_fn a raw) as [batch_all|e]; [|done]. cbn [mbind result_bind] in Hloop.
  destruct (Z.gtb_spec (steps_trained_in_current_epoch st1) 0) as [?|_]; [lia|].
  rewrite Z.add_0_l, Z.eqb_refl in Hloop.
  destruct (train_step a half batch_all (save_model a st1)) as [st2|e] eqn:Hstep; [|done].
  cbn [mbind result_bind] in Hloop.
  apply train_step_inv in Hstep as (n & l & ->).
  assert (Hin : SavePretrained (checkpoint_dir a (global_step st1))
                ∈ trace (finish_step a half (backward (add_instances (save_model a st1) n) l) l)).
  { rewrite finish_step_trace. apply elem_of_app. left. simpl.
    apply elem_of_app. right. left. }
  rewrite H1 in Hin.
  unfold past_max_steps in Hloop. destruct (Z.gtb_spec (max_steps a) 0) as [?|_]; [lia|].
  cbn [andb] in Hloop. apply epoch_loop_trace_prefix in Hloop.
  destruct Hloop as [k ->]. apply elem_of_app. by left.
Qed.

End TrainInvariants.

(** X7 for the fresh run of [example_args] over [example_dataloader]. *)
Lemma train_global_step_counts_updates_witness :
  ∃ st, train_loops example_loss example_set_to_list example_args example_dataloader ∅ = Ok st
        ∧ global_step st = 0 + count_events is_optimizer_step (trace st).
Proof.
  destruct (train_loops example_loss example_set_to_list example_args example_dataloader ∅)
    as [st|e] eqn:Hloops.
  - exists st. split; [reflexivity|].
    refine (proj1 (proj2 (train_global_step_counts_updates example_loss example_set_to_list
                            example_args example_dataloader ∅ 0 0 0 st _ Hloops))).
    vm_compute. reflexivity.
  - vm_compute in Hloops. discriminate.
Defined.

(** X8 for the fresh run of [example_args] over [example_dataloader]. *)
Lemma train_leaves_resumable_checkpoint_witness :
  ∃ st, train_loops example_loss example_set_to_list example_args example_dataloader ∅ = Ok st
        ∧ checkpointed example_args st.
Proof.
  destruct (train_loops example_loss example_set_to_list example_args example_dataloader ∅)
    as [st|e] eqn:Hloops.
  - exists st. split; [reflexivity|].
    refine (proj1 (train_leaves_resumable_checkpoint example_loss example_set_to_list
                     example_args example_dataloader ∅ st eq_refl _ _ _ _ Hloops)).
    + vm_compute. reflexivity.
    + simpl. lia.
    + simpl. lia.
    + right. vm_compute. discriminate.
  - vm_compute in Hloops. discriminate.
Defined.

(** X9 for the first epoch of [example_dataloader], whose half is at step 5. *)
Lemma epoch_loop_saves_at_half_witness :
  ∃ st', epoch_loop example_loss example_set_to_list example_args 5 0
           (dl_batches example_dataloader 0) example_state = Ok st'
         ∧ SavePretrained (checkpoint_dir example_args (0 + 5 / 2)) ∈ trace st'.
Proof.
  destruct (epoch_loop example_loss example_set_to_list example_args 5 0
              (dl_batches example_dataloader 0) example_state) as [st'|e] eqn:Hloop.
  - exists st'. split; [reflexivity|].
    apply (epoch_loop_saves_at_half example_loss example_set_to_list example_args 5
             (dl_batches example_dataloader 0) example_state st'
             ltac:(simpl; lia) ltac:(simpl; lia) ltac:(simpl; lia) ltac:(simpl; lia) Hloop).
  - vm_compute in Hloop. discriminate.
Defined.

(** ** More on resuming *)

Lemma split_without_sep sep (s : string) :
  has_char sep s = false → split sep s = [s].
Proof.
  induction s as [|c s IH]; [done|]. cbn [has_char split].
  intros [Hc Hs]%orb_false_iff. rewrite Hc, IH by done. done.
Qed.

Lemma has_char_app c (s1 s2 : string) :
  has_char c (s1 +:+ s2) = has_char c s1 || has_char c s2.
Proof.
  induction s1 as [|c1 s1 IH]; [done|].
  rewrite string_app_cons. cbn [has_char]. rewrite IH. by rewrite orb_assoc.
Qed.

Lemma has_char_digits c (d : Decimal.uint) :
  digit_of c = None → has_char c (NilEmpty.string_of_uint d) = false.
Proof.
  intros Hc.
  assert (Hne : ∀ c', digit_of c' ≠ None → Ascii.eqb c' c = false).
  { intros c' Hc'. by destruct (Ascii.eqb_spec c' c) as [->|]. }
  induction d; cbn [NilEmpty.string_of_uint has_char]; [done|..];
    (rewrite Hne by (by vm_compute)); by rewrite IHd.
Qed.

Lemma has_char_str c (z : Z) : 0 ≤ z → digit_of c = None → has_char c (str z) = false.
Proof.
  intros Hz Hc. destruct (str_nonneg z Hz) as (d & _ & -> & _). by apply has_char_digits.
Qed.

(** X10.  The model path may point below the checkpoint directory: when
    it is the directory of step [gs] followed by [/] and anything without a
    [-] (nothing, for a trailing slash), [resume] still reads [gs]. *)
Theorem resume_from_below_checkpoint (a0 a : args) (fs : filesystem) (len gs : Z) (q : string) :
  0 ≤ gs →
  model_name_or_path a = checkpoint_dir a0 gs +:+ String "/" q →
  has_char "-" q = false →
  path_exists fs (model_name_or_path a) = true →
  start_again a = false →
  len / gradient_accumulation_steps a ≠ 0 →
  resume a fs len
  = Ok (gs, gs / (len / gradient_accumulation_steps a),
        gs mod (len / gradient_accumulation_steps a)).
Proof.
  intros Hgs Hpath Hq Hex Hstart Hspe. unfold resume.
  rewrite Hex, Hstart. cbn [negb andb].
  destruct (checkpoint_dir_suffix a0 gs) as [p Hp].
  rewrite Hpath, Hp, string_app_assoc, string_app_cons, split_app_sep.
  rewrite (split_without_sep "-" (str gs +:+ String "/" q)).
  2:{ rewrite has_char_app. rewrite (has_char_str "-" gs Hgs eq_refl). cbn [has_char orb].
      exact Hq. }
  rewrite index_last. cbn [mbind result_bind].
  rewrite split_app_sep, (split_str "/" gs Hgs eq_refl). cbn [app]. rewrite index_head.
  cbn [mbind result_bind]. rewrite (int_str gs Hgs). cbn [mbind result_bind].
  unfold floordiv, modulo.
  destruct (Z.eqb_spec (gradient_accumulation_steps a) 0) as [H0|_].
  { rewrite H0, Z.div_0_r in Hspe. done. }
  cbn [mbind result_bind].
  destruct (Z.eqb_spec (len / gradient_accumulation_steps a) 0) as [?|_]; [done|].
  reflexivity.
Qed.

(** X10 for a model directory [best] below the checkpoint of step 7. *)
Lemma resume_from_below_checkpoint_witness :
  resume below_checkpoint_args {["out/checkpoint-7/best"%string := Dir]} 10
  = Ok (7, 7 / (10 / 2), 7 mod (10 / 2)).
Proof.
  apply (resume_from_below_checkpoint example_args below_checkpoint_args
           {["out/checkpoint-7/best"%string := Dir]} 10 7 "best").
  - lia.
  - vm_compute. reflexivity.
  - reflexivity.
  - vm_compute. reflexivity.
  - reflexivity.
  - vm_compute. discriminate.
Defined.



Section ResumeFailure.

Variable model_loss : list event → Z → collated → Q.
Variable set_to_list : list Z → list Z.


End ResumeFailure.


(** ** More on [evaluate] *)

Section EvaluateMore.

Variable processors : gmap string processor.
Variable output_modes : gmap string string.
Variable convert_examples_to_features :
  list input_example → list string → Z → string → string → result (list input_features).
Variable eval_metrics : string → Z → list input_features → result (gmap string Q).

Local Abbreviation evaluate_one :=
  (evaluate_one processors output_modes convert_examples_to_features eval_metrics).
Local Abbreviation evaluate_tasks :=
  (evaluate_tasks processors output_modes convert_examples_to_features eval_metrics).
Local Abbreviation evaluate :=
  (evaluate processors output_modes convert_examples_to_features eval_metrics).
Local Abbreviation load_and_cache_examples :=
  (load_and_cache_examples processors output_modes convert_examples_to_features).

(** Every task is evaluated under its own name and reports to the output
    directory. *)
Lemma eval_pairs_single a task_name :
  zip (eval_task_names task_name) (eval_outputs_dirs a task_name)
  = [(task_name, output_dir a)].
Proof.
  unfold eval_task_names, eval_outputs_dirs.
  by destruct (String.eqb_spec task_name "mnli") as [->|].
Qed.

Lemma evaluate_tasks_passes a prefix i tasks st0 st :
  evaluate_tasks a prefix i tasks st0 = Ok st →
  pass_task <$> passes st = (pass_task <$> passes st0) ++ tasks
  ∧ pass_output_dir <$> passes st
    = (pass_output_dir <$> passes st0) ++ replicate (length tasks) (output_dir a)
  ∧ dom (full_results st) = dom (full_results st0) ∪ list_to_set tasks.
Proof.
  revert i st0. induction tasks as [|t rest IH]; intros i st0.
  - simpl. intros [= <-]. rewrite !app_nil_r. split; [done|]. split; [done|]. set_solver.
  - cbn [RunGlue.evaluate_tasks]. rewrite eval_pairs_single. cbn [evaluate_pairs].
    destruct (evaluate_one a prefix i t (output_dir a) ∅ st0) as [[results st1]|] eqn:Hone;
      [|done].
    cbn [mbind result_bind].
    apply evaluate_one_inv in Hone as (nl & Hfull & Hpasses & Hvar).
    rewrite Hvar. intros H. apply IH in H. cbn [full_results passes] in H.
    destruct H as (H1 & H2 & H3).
    rewrite Hpasses, !fmap_app in H1, H2. cbn [fmap list_fmap pass_task pass_output_dir] in H1, H2.
    rewrite <- !app_assoc in H1, H2. split; [done|]. split; [done|].
    rewrite H3, dom_insert_L, Hfull. cbn [list_to_set]. set_solver.
Qed.

(** X12.  An evaluation that returns has run exactly one pass per
    configured task, in the order of the task list, every pass reporting
    to the output directory itself (the [-MM] directory is never used),
    and its results hold exactly the task names as keys. *)
Theorem evaluate_one_pass_per_task a fs prefix st :
  evaluate a fs prefix = Ok st →
  pass_task <$> passes st = task_names a
  ∧ pass_output_dir <$> passes st = replicate (length (task_names a)) (output_dir a)
  ∧ dom (full_results st) = list_to_set (task_names a).
Proof.
  unfold RunGlue.evaluate. intros H. apply evaluate_tasks_passes in H.
  cbn [passes full_results fmap list_fmap app] in H. destruct H as (H1 & H2 & H3).
  split; [done|]. split; [done|]. rewrite H3. set_solver.
Qed.

(** X13.  A task whose held-out set is empty makes [evaluate] raise
    [ZeroDivisionError]: no batch is evaluated and the summed loss is
    divided by the number of batches. *)
Theorem evaluate_empty_dev_set a fs prefix task_name rest output_mode task data_dir fs' :
  task_names a = task_name :: rest →
  output_modes !! task_name = Some output_mode →
  index (task_list a) 0 = Ok task →
  index (data_dir_list a) 0 = Ok data_dir →
  load_and_cache_examples a fs task data_dir true (short a) = Ok ([], fs') →
  0 < per_gpu_eval_batch_size a * Z.max 1 (n_gpu a) →
  evaluate a fs prefix = Raise ZeroDivisionError.
Proof.
  intros Htasks Hmode Htask Hdir Hload Hbs.
  unfold RunGlue.evaluate. rewrite Htasks. cbn [RunGlue.evaluate_tasks].
  rewrite eval_pairs_single. cbn [evaluate_pairs]. unfold RunGlue.evaluate_one.
  rewrite Hmode. cbn [mbind result_bind eval_files]. rewrite Htask, Hdir.
  cbn [mbind result_bind]. rewrite Hload. cbn [mbind result_bind].
  destruct (Z.leb_spec (per_gpu_eval_batch_size a * Z.max 1 (n_gpu a)) 0); [lia|done].
Qed.

End EvaluateMore.

(** X12 for the evaluation of MNLI and RTE. *)
Lemma evaluate_one_pass_per_task_witness :
  ∃ st, evaluate example_processors example_output_modes example_convert example_metrics
          eval_only_args ∅ "" = Ok st
        ∧ pass_task <$> passes st = ["mnli"; "rte"]%string.
Proof.
  destruct (evaluate example_processors example_output_modes example_convert example_metrics
              eval_only_args ∅ "") as [st|e] eqn:Hev.
  - exists st. split; [reflexivity|].
    apply (evaluate_one_pass_per_task example_processors example_output_modes example_convert
             example_metrics eval_only_args ∅ "" st Hev).
  - vm_compute in Hev. discriminate.
Defined.

(** X13 for RTE without held-out examples. *)
Lemma evaluate_empty_dev_set_witness :
  evaluate empty_dev_processors example_output_modes example_convert example_metrics
    rte_args ∅ "" = Raise ZeroDivisionError.
Proof.
  apply (evaluate_empty_dev_set empty_dev_processors example_output_modes example_convert
           example_metrics rte_args ∅ "" "rte" [] "classification" "rte" "data/RTE"
           (<["data/RTE/cached_dev_roberta-large_128_rte"%string := File (Some [])]> ∅)).
  - reflexivity.
  - vm_compute. reflexivity.
  - reflexivity.
  - reflexivity.
  - vm_compute. reflexivity.
  - simpl. lia.
Defined.

(** ** More on the feature cache *)

Lemma drop_last_snoc (t : string) (c : ascii) : drop_last (t +:+ String c "") = t.
Proof.
  induction t as [|c' t IH]; [done|].
  rewrite string_app_cons. cbn [drop_last]. rewrite IH.
  destruct t; by rewrite ?string_app_nil_l, ?string_app_cons.
Qed.

Section CacheMore.

Variable processors : gmap string processor.
Variable output_modes : gmap string string.

Local Abbreviation lookup_task := (lookup_task processors output_modes).

Lemma load_hit convert a fs task data_dir evaluate shorten p output_mode cached_file features :
  lookup_task task = Ok (p, output_mode) →
  cached_features_file a task data_dir evaluate = Ok cached_file →
  is_known_output_mode output_mode = true →
  overwrite_cache a = false →
  fs !! cached_file = Some (File (Some features)) →
  load_and_cache_examples processors output_modes convert a fs task data_dir evaluate shorten
  = Ok (features, fs).
Proof.
  intros Hlookup Hfile Hmode Hover Hcached. unfold load_and_cache_examples.
  rewrite Hlookup. cbn [mbind result_bind]. rewrite Hfile. cbn [mbind result_bind].
  assert (Hex : path_exists fs cached_file = true).
  { unfold path_exists. apply bool_decide_eq_true. rewrite Hcached. eauto. }
  rewrite Hex, Hover. cbn [negb andb]. unfold torch_load. rewrite Hcached.
  cbn [mbind result_bind]. by rewrite Hmode.
Qed.

(** A call that returned leaves a cache that a later call reads, also a
    call with other arguments that name the same cache file. *)
Lemma load_and_cache_examples_reload convert convert' a1 a2 fs task data_dir evaluate
    shorten shorten' features fs' :
  in_first_process a1 = true →
  overwrite_cache a1 = false →
  overwrite_cache a2 = false →
  cached_features_file a1 task data_dir evaluate
  = cached_features_file a2 task data_dir evaluate →
  load_and_cache_examples processors output_modes convert a1 fs task data_dir evaluate shorten
  = Ok (features, fs') →
  load_and_cache_examples processors output_modes convert' a2 fs' task data_dir evaluate
    shorten' = Ok (features, fs').
Proof.
  intros Hfirst Hover Hover2 Hsame Hload.
  unfold load_and_cache_examples in Hload.
  destruct (lookup_task task) as [[p output_mode]|] eqn:Hlookup; [|done].
  cbn [mbind result_bind] in Hload.
  destruct (cached_features_file a1 task data_dir evaluate) as [cached_file|] eqn:Hfile;
    [|done].
  symmetry in Hsame.
  cbn [mbind result_bind] in Hload. rewrite Hover in Hload. cbn [negb] in Hload.
  rewrite andb_true_r in Hload.
  destruct (path_exists fs cached_file) eqn:Hex.
  - unfold torch_load in Hload.
    destruct (fs !! cached_file) as [[|[cached|]]|] eqn:Hcached; try done.
    cbn [mbind result_bind] in Hload.
    destruct (is_known_output_mode output_mode) eqn:Hmode; [|done].
    injection Hload as <- <-. by apply (load_hit _ _ _ _ _ _ _ p output_mode cached_file).
  - unfold create_features in Hload.
    destruct (make_features convert a1 p output_mode task data_dir evaluate shorten)
      as [made|]; [|done].
    cbn [mbind result_bind] in Hload. rewrite Hfirst in Hload.
    destruct (is_known_output_mode output_mode) eqn:Hmode; [|done].
    injection Hload as <- <-.
    apply (load_hit _ _ _ _ _ _ _ p output_mode cached_file); try done.
    by rewrite lookup_insert_eq.
Qed.

(** X14.  What the first process has loaded once is served from the cache
    afterwards: after a call that returned with [overwrite_cache] off, the
    same call on the resulting file system returns the same features and
    writes nothing, whatever the tokenizer would produce now and whether
    or not [short] is set (the cache file's name does not record [short]). *)
Theorem load_and_cache_examples_round_trip convert a fs task data_dir evaluate shorten
    features fs' :
  in_first_process a = true →
  overwrite_cache a = false →
  load_and_cache_examples processors output_modes convert a fs task data_dir evaluate shorten
  = Ok (features, fs') →
  ∀ convert' shorten',
    load_and_cache_examples processors output_modes convert' a fs' task data_dir evaluate
      shorten' = Ok (features, fs').
Proof.
  intros Hfirst Hover Hload convert' shorten'.
  by apply (load_and_cache_examples_reload convert convert' a a fs _ _ _ shorten).
Qed.

Lemma cached_features_file_model_id (a : args) (p m task data_dir : string) (evaluate : bool) :
  model_name_or_path a = p +:+ String "/" m →
  has_char "/" m = false →
  m ≠ ""%string →
  cached_features_file a task data_dir evaluate
  = Ok (path_join data_dir
          ("cached_" +:+ (if evaluate then "dev" else "train") +:+ "_" +:+ m
           +:+ "_" +:+ str (max_seq_length a) +:+ "_" +:+ task)).
Proof.
  intros Hpath Hm Hne. unfold cached_features_file.
  rewrite Hpath, split_app_sep, (split_without_sep "/" m Hm), List.filter_app.
  cbn [List.filter]. destruct (String.eqb_spec m ""); [done|]. cbn [negb].
  by rewrite index_last.
Qed.

(** X21.  The cache file is named after the last component of the model
    path, the maximal sequence length, the split and the task only: two
    configurations whose model paths end in the same component share their
    caches, so that the features one of them has made are what the other
    loads, whatever its model type, its tokenizer and the rest of its
    model path. *)
Theorem cache_shared_between_models (a1 a2 : args) (p1 p2 m : string) :
  model_name_or_path a1 = p1 +:+ String "/" m →
  model_name_or_path a2 = p2 +:+ String "/" m →
  has_char "/" m = false →
  m ≠ ""%string →
  max_seq_length a1 = max_seq_length a2 →
  (∀ task data_dir evaluate,
     cached_features_file a1 task data_dir evaluate
     = cached_features_file a2 task data_dir evaluate)
  ∧ ∀ convert fs task data_dir evaluate shorten features fs',
      in_first_process a1 = true →
      overwrite_cache a1 = false →
      overwrite_cache a2 = false →
      load_and_cache_examples processors output_modes convert a1 fs task data_dir evaluate
        shorten = Ok (features, fs') →
      ∀ convert' shorten',
        load_and_cache_examples processors output_modes convert' a2 fs' task data_dir
          evaluate shorten' = Ok (features, fs').
Proof.
  intros Hp1 Hp2 Hm Hne Hlen.
  assert (Hsame : ∀ task data_dir evaluate,
            cached_features_file a1 task data_dir evaluate
            = cached_features_file a2 task data_dir evaluate).
  { intros task data_dir evaluate.
    rewrite (cached_features_file_model_id a1 p1 m), (cached_features_file_model_id a2 p2 m)
      by done.
    by rewrite Hlen. }
  split; [done|].
  intros convert fs task data_dir evaluate shorten features fs' Hfirst Hover1 Hover2 Hload
    convert' shorten'.
  by apply (load_and_cache_examples_reload convert convert' a1 a2 fs _ _ _ shorten).
Qed.

(** X15.  A cache file that exists but does not hold features (a
    directory, or a file that does not unpickle to features) is fatal while
    [overwrite_cache] is off: the call raises and the features are not
    made anew, whatever the tokenizer. *)
Theorem load_and_cache_examples_unreadable_cache convert a fs task data_dir evaluate shorten
    p output_mode cached_file :
  lookup_task task = Ok (p, output_mode) →
  cached_features_file a task data_dir evaluate = Ok cached_file →
  overwrite_cache a = false →
  fs !! cached_file = Some Dir ∨ fs !! cached_file = Some (File None) →
  load_and_cache_examples processors output_modes convert a fs task data_dir evaluate shorten
  = Raise (Exception ("cannot load " +:+ cached_file)).
Proof.
  intros Hlookup Hfile Hover Hcached. unfold load_and_cache_examples.
  rewrite Hlookup. cbn [mbind result_bind]. rewrite Hfile. cbn [mbind result_bind].
  assert (Hex : path_exists fs cached_file = true).
  { unfold path_exists. apply bool_decide_eq_true. destruct Hcached as [-> | ->]; eauto. }
  rewrite Hex, Hover. cbn [negb andb]. unfold torch_load.
  by destruct Hcached as [-> | ->].
Qed.

(** X16.  A task name that is not in the processor table is looked up
    without its last character: the entries of the shorter name are used
    when it is known, and [KeyError] names the shorter name when it is
    not. *)
Theorem lookup_task_family_suffix (t : string) (c : ascii) :
  processors !! (t +:+ String c "") = None →
  (∀ p m, processors !! t = Some p → output_modes !! t = Some m →
          lookup_task (t +:+ String c "") = Ok (p, m))
  ∧ (processors !! t = None →
     ∀ convert a fs data_dir evaluate shorten,
       load_and_cache_examples processors output_modes convert a fs (t +:+ String c "")
         data_dir evaluate shorten = Raise (KeyError t)).
Proof.
  intros Hnone. split.
  - intros p m Hp Hm. unfold RunGlue.lookup_task. rewrite Hnone, drop_last_snoc, Hp, Hm. done.
  - intros Ht convert a fs data_dir evaluate shorten. unfold load_and_cache_examples.
    unfold RunGlue.lookup_task. rewrite Hnone, drop_last_snoc, Ht. done.
Qed.

End CacheMore.

(** X14 for the training set of RTE: the second call reads what the first
    has written, also with a tokenizer that fails. *)
Lemma load_and_cache_examples_round_trip_witness :
  load_and_cache_examples example_processors example_output_modes
    (λ _ _ _ _ _, Raise (Exception "tokenizer")) example_args
    (<["data/RTE/cached_train_roberta-large_128_rte"%string
         := File (Some [example_features])]> ∅) "rte" "data/RTE" false true
  = Ok ([example_features],
        <["data/RTE/cached_train_roberta-large_128_rte"%string
            := File (Some [example_features])]> ∅).
Proof.
  apply (load_and_cache_examples_round_trip example_processors example_output_modes
           example_convert example_args ∅ "rte" "data/RTE" false false).
  - reflexivity.
  - reflexivity.
  - vm_compute. reflexivity.
Defined.

(** X21 for two models named [final]. *)
Lemma cache_shared_between_models_witness :
  cached_features_file first_model_args "rte" "data/RTE" false
  = cached_features_file second_model_args "rte" "data/RTE" false.
Proof.
  apply (proj1 (cache_shared_between_models example_processors example_output_modes
                  first_model_args second_model_args "models/a" "models/b" "final"
                  ltac:(reflexivity) ltac:(reflexivity) ltac:(reflexivity)
                  ltac:(discriminate) ltac:(reflexivity))).
Defined.

(** X15 for a directory standing where the cache file of RTE would be. *)
Lemma load_and_cache_examples_unreadable_cache_witness :
  load_and_cache_examples example_processors example_output_modes example_convert
    example_args {["data/RTE/cached_train_roberta-large_128_rte"%string := Dir]}
    "rte" "data/RTE" false false
  = Raise (Exception ("cannot load " +:+ "data/RTE/cached_train_roberta-large_128_rte")).
Proof.
  apply (load_and_cache_examples_unreadable_cache example_processors example_output_modes
           example_convert example_args
           {["data/RTE/cached_train_roberta-large_128_rte"%string := Dir]}
           "rte" "data/RTE" false false rte_processor "classification").
  - vm_compute. reflexivity.
  - vm_compute. reflexivity.
  - reflexivity.
  - left. vm_compute. reflexivity.
Defined.

(** X16 for the task name [rte2], which has no processor of its own. *)
Lemma lookup_task_family_suffix_witness :
  lookup_task example_processors example_output_modes "rte2"
  = Ok (rte_processor, "classification"%string).
Proof.
  apply (proj1 (lookup_task_family_suffix example_processors example_output_modes "rte" "2"
                  ltac:(vm_compute; reflexivity)) rte_processor "classification").
  - vm_compute. reflexivity.
  - vm_compute. reflexivity.
Defined.

(** ** More on the start of [main] *)

(** X17.  The task names are checked in order: [main] passes its startup
    checks on a fresh output directory exactly when every task name has a
    processor, and otherwise raises [ValueError] naming the first task that
    has none. *)
Theorem main_startup_task_names (known : gmap string processor) (a : args) (fs : filesystem) :
  path_exists fs (output_dir a) = false →
  isfile fs (path_join (output_dir a) "results.csv") = false →
  (main_startup known a fs = Ok () ↔ Forall (λ t, is_Some (known !! t)) (task_names a))
  ∧ ∀ before t after,
      task_names a = before ++ t :: after →
      Forall (λ t, is_Some (known !! t)) before →
      known !! t = None →
      main_startup known a fs = Raise (ValueError ("Task not found: " +:+ t)).
Proof.
  intros Hdir Hcsv.
  assert (Hmain : main_startup known a fs = check_task_names known (task_names a)).
  { unfold main_startup. rewrite Hdir. cbn [mbind result_bind andb]. by rewrite Hcsv. }
  rewrite Hmain. clear Hmain. split.
  - induction (task_names a) as [|t rest IH]; cbn [check_task_names].
    + split; [constructor|done].
    + destruct (known !! t) eqn:Ht.
      * rewrite IH. split.
        -- intros ?. constructor; [by rewrite Ht|done].
        -- by intros [_ ?]%Forall_cons.
      * split; [done|]. intros [[? ?] _]%Forall_cons. congruence.
  - intros before t after -> Hbefore Ht.
    induction Hbefore as [|t' before' [p Hp] _ IH]; cbn [app check_task_names].
    + by rewrite Ht.
    + by rewrite Hp.
Qed.

(** X17 for a fresh output directory and the tasks of [example_args]. *)
Lemma main_startup_task_names_witness :
  main_startup example_processors example_args ∅ = Ok ()
  ↔ Forall (λ t, is_Some (example_processors !! t)) (task_names example_args).
Proof.
  refine (proj1 (main_startup_task_names example_processors example_args ∅ _ _)).
  - vm_compute. reflexivity.
  - vm_compute. reflexivity.
Defined.

(** ** The end of [main] *)

Lemma string_length_app (s1 s2 : string) :
  String.length (s1 +:+ s2) = (String.length s1 + String.length s2)%nat.
Proof.
  induction s1 as [|c s1 IH]; [by rewrite string_app_nil_l|].
  rewrite string_app_cons. cbn [String.length]. by rewrite IH.
Qed.

#[local] Instance string_app_inj_r (s : string) : Inj (=) (=) (λ k, k +:+ s).
Proof.
  intros k1. induction k1 as [|c1 k1 IH]; intros [|c2 k2] Heq; [done| | |].
  - apply (f_equal String.length) in Heq.
    rewrite string_app_nil_l, string_app_cons in Heq. cbn [String.length] in Heq.
    rewrite string_length_app in Heq. lia.
  - apply (f_equal String.length) in Heq.
    rewrite string_app_nil_l, string_app_cons in Heq. cbn [String.length] in Heq.
    rewrite string_length_app in Heq. lia.
  - rewrite !string_app_cons in Heq. injection Heq as -> Heq. f_equal. by apply IH.
Qed.

Lemma dom_suffix_keys {V} (g : string) (m : gmap string V) :
  dom (suffix_keys g m) = set_map (λ k, k +:+ "_" +:+ g) (dom m).
Proof. unfold suffix_keys. by rewrite dom_kmap_L by apply _. Qed.

Section MainEvaluateProperties.

Variable processors : gmap string processor.
Variable output_modes : gmap string string.
Variable convert_examples_to_features :
  list input_example → list string → Z → string → string → result (list input_features).
Variable checkpoint_metrics : string → string → Z → list input_features → result (gmap string Q).

Local Abbreviation evaluate_checkpoints :=
  (evaluate_checkpoints processors output_modes convert_examples_to_features checkpoint_metrics).
Local Abbreviation main_evaluate :=
  (main_evaluate processors output_modes convert_examples_to_features checkpoint_metrics).

(** The keys a list of checkpoint suffixes gives to the task names. *)
Local Abbreviation keys_of a suffixes :=
  (⋃ ((λ g : string, set_map (C := gset string) (D := gset string)
                       (λ k : string, k +:+ "_" +:+ g) (list_to_set (task_names a)))
      <$> suffixes)).

Lemma evaluate_checkpoints_keys a checkpoints todo results fs results' fs' :
  evaluate_checkpoints a checkpoints todo results fs = Ok (results', fs') →
  ∃ suffixes,
    mapM (checkpoint_global_step checkpoints) todo = Ok suffixes
    ∧ dom results' = keys_of a suffixes ∪ dom results.
Proof.
  revert results fs. induction todo as [|c rest IH]; intros results fs.
  - cbn. intros [= <- <-]. exists []. split; [done|]. cbn. set_solver.
  - cbn [RunGlue.evaluate_checkpoints].
    destruct (checkpoint_global_step checkpoints c) as [g|] eqn:Hg; [|done].
    cbn [mbind result_bind].
    destruct (checkpoint_prefix c) as [prefix|]; [|done]. cbn [mbind result_bind].
    destruct (evaluate _ _ _ _ a fs prefix) as [st|] eqn:Hev; [|done].
    cbn [mbind result_bind]. intros H. apply IH in H as (suffixes & Hs & Hdom).
    exists (g :: suffixes). split.
    + cbn [mapM]. rewrite Hg. cbn [mbind result_bind]. rewrite Hs. done.
    + unfold evaluate in Hev. apply evaluate_tasks_passes in Hev as (_ & _ & Hkeys).
      cbn [full_results] in Hkeys.
      rewrite Hdom, dom_union_L, dom_suffix_keys, Hkeys. cbn [fmap list_fmap union_list].
      set_solver.
Qed.


Lemma mapM_total {A B} (f : A → result B) (h : A → B) (l : list A) :
  (∀ x, f x = Ok (h x)) → mapM f l = Ok (h <$> l).
Proof.
  intros Hf. induction l as [|x l IH]; [done|].
  cbn [mapM]. rewrite Hf. cbn [mbind result_bind]. by rewrite IH.
Qed.

Lemma index_split_last sep (s : string) :
  ∃ g, last (split sep s) = Some g ∧ index (split sep s) (-1) = Ok g.
Proof.
  pose proof (split_nonempty sep s) as Hne.
  destruct (split sep s) as [|x l] using rev_ind; [done|].
  exists x. split; [by rewrite last_snoc|apply index_last].
Qed.

(** X18.  With the output directory as the only checkpoint (the default),
    the results of [main] are those of one [evaluate] call, each task's
    results stored under the task's name followed by an underscore: the
    step suffix is empty. *)
Theorem main_evaluate_single_checkpoint a c fs results fs' :
  do_eval a = true →
  in_first_process a = true →
  main_evaluate a [c] fs = Ok (results, fs') →
  ∃ prefix st,
    checkpoint_prefix c = Ok prefix
    ∧ evaluate processors output_modes convert_examples_to_features (checkpoint_metrics c)
        a fs prefix = Ok st
    ∧ fs' = eval_files st
    ∧ (∀ t, results !! (t +:+ "_") = full_results st !! t)
    ∧ dom results
      = set_map (C := gset string) (λ t : string, t +:+ "_") (list_to_set (task_names a)).
Proof.
  intros Heval Hfirst. unfold RunGlue.main_evaluate. rewrite Heval, Hfirst. cbn [andb].
  cbn [RunGlue.evaluate_checkpoints]. unfold checkpoint_global_step. cbn [length].
  change (1 <? Z.of_nat 1) with false. cbv iota. cbn [mbind result_bind].
  destruct (checkpoint_prefix c) as [prefix|]; [|done]. cbn [mbind result_bind].
  destruct (evaluate _ _ _ _ a fs prefix) as [st|] eqn:Hev; [|done].
  cbn [mbind result_bind]. intros [= <- <-]. exists prefix, st.
  split; [done|]. split; [done|]. split; [done|]. rewrite (right_id_L ∅ (∪)).
  split.
  - intros t. unfold suffix_keys.
    change (t +:+ "_") with ((λ k : string, k +:+ "_" +:+ "") t).
    by rewrite lookup_kmap by apply _.
  - unfold evaluate in Hev. apply evaluate_tasks_passes in Hev as (_ & _ & Hkeys).
    cbn [full_results] in Hkeys. rewrite dom_suffix_keys, Hkeys.
    f_equal. set_solver.
Qed.

(** X19.  With several checkpoints, the keys of the results of [main] are
    exactly the task names followed by an underscore and by what stands
    after the last hyphen of a checkpoint's path, for every task and every
    checkpoint; for a checkpoint directory of [save_model] this is the
    step number. *)
Theorem main_evaluate_checkpoint_keys a checkpoints fs results fs' :
  do_eval a = true →
  in_first_process a = true →
  (1 < length checkpoints)%nat →
  main_evaluate a checkpoints fs = Ok (results, fs') →
  (∀ k, k ∈ dom results ↔
        ∃ t c g, t ∈ task_names a ∧ c ∈ checkpoints
                 ∧ last (split "-" c) = Some g ∧ k = t +:+ "_" +:+ g)
  ∧ ∀ a0 gs t, 0 ≤ gs → checkpoint_dir a0 gs ∈ checkpoints → t ∈ task_names a →
               is_Some (results !! (t +:+ "_" +:+ str gs)).
Proof.
  intros Heval Hfirst Hlen. unfold RunGlue.main_evaluate. rewrite Heval, Hfirst. cbn [andb].
  intros H. apply evaluate_checkpoints_keys in H as (suffixes & Hs & Hdom).
  rewrite dom_empty_L, (right_id_L ∅ (∪)) in Hdom.
  assert (Hsuffix : ∀ g, g ∈ suffixes ↔ ∃ c, c ∈ checkpoints ∧ last (split "-" c) = Some g).
  { assert (Hstep : ∀ c, checkpoint_global_step checkpoints c
                         = Ok (default ""%string (last (split "-" c)))).
    { intros c. unfold checkpoint_global_step.
      destruct (Z.ltb_spec 1 (Z.of_nat (length checkpoints))); [|lia].
      destruct (index_split_last "-" c) as (g & -> & ->). done. }
    rewrite (mapM_total _ _ _ Hstep) in Hs. injection Hs as <-.
    intros g. rewrite list_elem_of_fmap. split.
    - intros (c & -> & Hc). exists c. split; [done|].
      by destruct (index_split_last "-" c) as (g & -> & _).
    - intros (c & Hc & Hg). exists c. by rewrite Hg. }
  assert (Hkeys : ∀ k, k ∈ dom results ↔
            ∃ t c g, t ∈ task_names a ∧ c ∈ checkpoints
                     ∧ last (split "-" c) = Some g ∧ k = t +:+ "_" +:+ g).
  { intros k. rewrite Hdom, elem_of_union_list. split.
    - intros (X & (g & -> & Hg)%list_elem_of_fmap & Hk).
      apply elem_of_map in Hk as (t & -> & Ht%elem_of_list_to_set).
      apply Hsuffix in Hg as (c & Hc & Hg). by exists t, c, g.
    - intros (t & c & g & Ht & Hc & Hg & ->).
      eexists. split.
      + apply list_elem_of_fmap. exists g. split; [done|]. apply Hsuffix. eauto.
      + apply elem_of_map. exists t. split; [done|]. by apply elem_of_list_to_set. }
  split; [done|].
  intros a0 gs t Hgs Hc Ht. apply elem_of_dom, Hkeys.
  exists t, (checkpoint_dir a0 gs), (str gs). split; [done|]. split; [done|]. split; [|done].
  destruct (checkpoint_dir_suffix a0 gs) as (p & ->).
  rewrite split_app_sep, split_str by done. by rewrite last_snoc.
Qed.

End MainEvaluateProperties.

(** X18 for the evaluation of MNLI and RTE in the output directory. *)
Lemma main_evaluate_single_checkpoint_witness :
  ∃ results fs',
    main_evaluate example_processors example_output_modes example_convert
      example_checkpoint_metrics eval_only_args ["out"%string] ∅ = Ok (results, fs')
    ∧ dom results = {[ "mnli_"%string; "rte_"%string ]}.
Proof.
  destruct (main_evaluate example_processors example_output_modes example_convert
              example_checkpoint_metrics eval_only_args ["out"%string] ∅)
    as [[results fs']|e] eqn:Hmain.
  - exists results, fs'. split; [reflexivity|].
    destruct (main_evaluate_single_checkpoint example_processors example_output_modes
                example_convert example_checkpoint_metrics eval_only_args "out" ∅
                results fs' eq_refl eq_refl Hmain) as (_ & _ & _ & _ & _ & _ & ->).
    vm_compute. reflexivity.
  - vm_compute in Hmain. discriminate.
Defined.

(** X19 for the checkpoints of steps 1 and 2. *)
Lemma main_evaluate_checkpoint_keys_witness :
  ∃ results fs',
    main_evaluate example_processors example_output_modes example_convert
      example_checkpoint_metrics eval_only_args
      [checkpoint_dir eval_only_args 1; checkpoint_dir eval_only_args 2] ∅
    = Ok (results, fs')
    ∧ is_Some (results !! ("rte" +:+ "_" +:+ str 2)).
Proof.
  destruct (main_evaluate example_processors example_output_modes example_convert
              example_checkpoint_metrics eval_only_args
              [checkpoint_dir eval_only_args 1; checkpoint_dir eval_only_args 2] ∅)
    as [[results fs']|e] eqn:Hmain.
  - exists results, fs'. split; [reflexivity|].
    apply (proj2 (main_evaluate_checkpoint_keys example_processors example_output_modes
                    example_convert example_checkpoint_metrics eval_only_args
                    [checkpoint_dir eval_only_args 1; checkpoint_dir eval_only_args 2] ∅
                    results fs' eq_refl eq_refl ltac:(simpl; lia) Hmain)
             eval_only_args 2 "rte").
    + lia.
    + apply list_elem_of_In. right. left. reflexivity.
    + apply list_elem_of_In. right. left. reflexivity.
  - vm_compute in Hmain. discriminate.
Defined.

(** ** Saving at the end of [main] and the next start *)

Lemma strip_prefix_app (p s : string) : strip_prefix p (p +:+ s) = Some s.
Proof.
  induction p as [|c p IH]; [by destruct s|].
  rewrite string_app_cons. cbn [strip_prefix]. by rewrite Ascii.eqb_refl.
Qed.

Lemma entry_of_training_args (d : string) :
  d ≠ ""%string →
  entry_of d (path_join d "training_args.bin") = Some "training_args.bin"%string.
Proof.
  intros Hd. unfold entry_of, path_join. cbv iota.
  destruct d as [|c d]; [done|].
  destruct (ends_with_slash (String c d)).
  - rewrite strip_prefix_app. by vm_compute.
  - rewrite <- string_app_assoc, strip_prefix_app. by vm_compute.
Qed.

Lemma path_join_training_args_ne (d : string) :
  d ≠ ""%string → path_join d "training_args.bin" ≠ d.
Proof.
  intros Hd. unfold path_join. cbv iota. destruct d as [|c d]; [done|].
  assert (Hlong : ∀ x y : string, y ≠ ""%string → x +:+ y ≠ x).
  { intros x y Hy Heq. apply (f_equal String.length) in Heq.
    rewrite string_length_app in Heq. destruct y; [done|]. cbn [String.length] in Heq. lia. }
  destruct (ends_with_slash (String c d)); by apply Hlong.
Qed.

(** X20.  A training run that reached its end has written into its output
    directory, so that starting [main] again to train into the same
    directory without [overwrite_output_dir] stops with [ValueError]
    before anything is loaded. *)
Theorem main_rerun_needs_overwrite known (a : args) (rank : Z) (fs : filesystem) :
  do_train a = true →
  local_rank a = -1 ∨ (local_rank a = 0 ∧ rank = 0) →
  overwrite_output_dir a = false →
  output_dir a ≠ ""%string →
  isfile fs (output_dir a) = false →
  main_startup known a (main_save a rank fs)
  = Raise (ValueError ("Output directory (" +:+ output_dir a
      +:+ ") already exists and is not empty. Use --overwrite_output_dir to overcome.")).
Proof.
  intros Htrain Hrank Hover Hout Hfile.
  assert (Hfirst : in_first_process a = true).
  { unfold in_first_process. destruct Hrank as [-> | [-> _]]; done. }
  assert (Hsave : (local_rank a =? -1) || (rank =? 0) = true).
  { destruct Hrank as [-> | [_ ->]]; [done|]. apply orb_true_r. }
  unfold main_save. rewrite Htrain, Hsave, Hfirst. cbn [andb]. rewrite andb_true_r.
  set (fs1 := if negb (path_exists fs (output_dir a)) then makedirs fs (output_dir a) else fs).
  set (fs2 := <[path_join (output_dir a) "training_args.bin" := File None]> fs1).
  assert (Hex1 : path_exists fs1 (output_dir a) = true).
  { unfold fs1. destruct (path_exists fs (output_dir a)) eqn:Hex; cbn [negb]; [done|].
    unfold path_exists, makedirs. apply bool_decide_eq_true. rewrite lookup_insert_eq. eauto. }
  assert (Hex2 : path_exists fs2 (output_dir a) = true) by by apply path_exists_insert.
  assert (Hnofile1 : isfile fs1 (output_dir a) = false).
  { unfold fs1. destruct (path_exists fs (output_dir a)); cbn [negb]; [done|].
    unfold isfile, makedirs. by rewrite lookup_insert_eq. }
  assert (Hne : path_join (output_dir a) "training_args.bin" ≠ output_dir a)
    by by apply path_join_training_args_ne.
  unfold main_startup. rewrite Hex2.
  assert (Hlist : ∃ entries, listdir fs2 (output_dir a) = Ok entries ∧ entries ≠ []).
  { unfold listdir.
    assert (Hlook : fs2 !! output_dir a = fs1 !! output_dir a)
      by (unfold fs2; by rewrite lookup_insert_ne).
    rewrite Hlook. unfold isfile in Hnofile1.
    eexists. split.
    - destruct (fs1 !! output_dir a) as [[|?]|]; [reflexivity|done|reflexivity].
    - intros Hnil.
      assert (Hin : "training_args.bin"%string
                    ∈ omap (λ kv : string * node, entry_of (output_dir a) kv.1)
                        (map_to_list fs2)).
      { apply list_elem_of_omap.
        exists (path_join (output_dir a) "training_args.bin", File None). split.
        - apply elem_of_map_to_list. apply lookup_insert_eq.
        - by apply entry_of_training_args. }
      rewrite Hnil in Hin. by apply elem_of_nil in Hin. }
  destruct Hlist as (entries & -> & Hentries). cbn [mbind result_bind].
  rewrite bool_decide_eq_false_2 by done. rewrite Htrain, Hover. done.
Qed.

(** X20 for a run of [example_args] into a fresh output directory. *)
Lemma main_rerun_needs_overwrite_witness :
  main_startup example_processors example_args (main_save example_args 0 ∅)
  = Raise (ValueError ("Output directory (" +:+ "out"
      +:+ ") already exists and is not empty. Use --overwrite_output_dir to overcome.")).
Proof.
  apply (main_rerun_needs_overwrite example_processors example_args 0 ∅).
  - reflexivity.
  - left. reflexivity.
  - reflexivity.
  - discriminate.
  - reflexivity.
Defined.

(** ** The label counts of an evaluation *)

Lemma remove_all_without_hyphen (s : string) :
  has_char "-" s = false → remove_all "-mm" s = s.
Proof.
  unfold remove_all. induction s as [|c s IH]; [done|].
  cbn [has_char]. intros [Hc Hs]%orb_false_iff. cbn [remove_all_from].
  assert (Hprefix : String.prefix "-mm" (String c s) = false).
  { destruct (String.prefix "-mm" (String c s)) eqn:Hp; [|done].
    apply String.prefix_correct in Hp. cbn in Hp. injection Hp as Hp _.
    subst c. done. }
  rewrite Hprefix, IH by done. done.
Qed.

Lemma list_index_from_lookup (x : string) (l : list string) (k : Z) (i : nat) :
  l !! i = Some x → x ∉ take i l → list_index_from x l k = Ok (k + Z.of_nat i).
Proof.
  revert k i. induction l as [|y l IH]; intros k [|i]; try done.
  - cbn. intros [= ->] _. rewrite String.eqb_refl. f_equal. lia.
  - cbn [lookup list_lookup take list_index_from]. intros Hl Hnotin.
    apply not_elem_of_cons in Hnotin as [Hne Hnotin].
    destruct (String.eqb_spec x y); [done|].
    rewrite (IH (k + 1) i) by done. f_equal. lia.
Qed.

Lemma list_index_NoDup (x : string) (l : list string) (i : nat) :
  NoDup l → l !! i = Some x → list_index x l = Ok (Z.of_nat i).
Proof.
  intros Hnd Hl. unfold list_index. rewrite (list_index_from_lookup x l 0 i); [done|done|].
  intros (j & Hj)%list_elem_of_lookup_1.
  apply lookup_take_Some in Hj as [Hj Hlt].
  pose proof (NoDup_lookup _ _ _ _ Hnd Hj Hl). lia.
Qed.

Lemma index_nat_inv {A} (l : list A) (i : nat) (x : A) :
  index l (Z.of_nat i) = Ok x → l !! i = Some x.
Proof.
  unfold index, norm_index.
  destruct (Z.ltb_spec (Z.of_nat i) 0); [lia|].
  destruct (_ && _); [|done]. cbn [mbind result_bind]. rewrite Nat2Z.id.
  by destruct (l !! i); [intros [= ->]|].
Qed.

Section EvaluateLabels.

Variable processors : gmap string processor.
Variable output_modes : gmap string string.
Variable convert_examples_to_features :
  list input_example → list string → Z → string → string → result (list input_features).
Variable eval_metrics : string → Z → list input_features → result (gmap string Q).

Local Abbreviation evaluate_one :=
  (evaluate_one processors output_modes convert_examples_to_features eval_metrics).
Local Abbreviation evaluate_tasks :=
  (evaluate_tasks processors output_modes convert_examples_to_features eval_metrics).
Local Abbreviation evaluate :=
  (evaluate processors output_modes convert_examples_to_features eval_metrics).

Lemma evaluate_one_num_labels a prefix i eval_task dir results st results' st' :
  evaluate_one a prefix i eval_task dir results st = Ok (results', st') →
  ∃ pos num_labels,
    list_index (remove_all "-mm" eval_task) (task_names a) = Ok pos
    ∧ index (num_label_list a) pos = Ok num_labels
    ∧ passes st' = passes st ++ [{| pass_task := eval_task; pass_output_dir := dir;
                                    pass_num_labels := num_labels |}]
    ∧ eval_task_var st' = Some eval_task.
Proof.
  unfold RunGlue.evaluate_one.
  destruct (output_modes !! eval_task); [|done]. cbn [mbind result_bind].
  destruct (index (task_list a) i); [|done]. cbn [mbind result_bind].
  destruct (index (data_dir_list a) i); [|done]. cbn [mbind result_bind].
  destruct (load_and_cache_examples _ _ _ _ _ _ _ _ _) as [[dataset fs]|]; [|done].
  cbn [mbind result_bind].
  destruct (_ <=? 0); [done|]. destruct dataset as [|f dataset]; [done|].
  destruct (list_index _ _) as [pos|]; [|done]. cbn [mbind result_bind].
  destruct (index (num_label_list a) pos) as [nl|] eqn:Hnl; [|done]. cbn [mbind result_bind].
  destruct (eval_metrics _ _ _); [|done]. cbn [mbind result_bind].
  intros [= <- <-]. by exists pos, nl.
Qed.

Lemma evaluate_tasks_num_labels a prefix i tasks st0 st :
  evaluate_tasks a prefix i tasks st0 = Ok st →
  ∃ new,
    passes st = passes st0 ++ new
    ∧ Forall2 (λ t p, pass_task p = t
                      ∧ ∃ pos, list_index (remove_all "-mm" t) (task_names a) = Ok pos
                               ∧ index (num_label_list a) pos = Ok (pass_num_labels p))
        tasks new.
Proof.
  revert i st0. induction tasks as [|t rest IH]; intros i st0.
  - cbn. intros [= <-]. exists []. by rewrite app_nil_r.
  - cbn [RunGlue.evaluate_tasks]. rewrite eval_pairs_single. cbn [evaluate_pairs].
    destruct (evaluate_one a prefix i t (output_dir a) ∅ st0) as [[results st1]|] eqn:Hone;
      [|done].
    cbn [mbind result_bind].
    apply evaluate_one_num_labels in Hone as (pos & nl & Hpos & Hnl & Hpasses & Hvar).
    rewrite Hvar. intros H. apply IH in H as (new & Hnew & Hall). cbn [passes] in Hnew.
    eexists (_ :: new). split.
    + rewrite Hnew, Hpasses, <- app_assoc. done.
    + constructor; [|done]. split; [done|]. by exists pos.
Qed.

(** X22.  When the task names are pairwise different and hold no hyphen,
    an evaluation that returns has evaluated the task at each position of
    the task list with the label count at the same position of
    [num_label_list]. *)
Theorem evaluate_label_counts a fs prefix st :
  NoDup (task_names a) →
  Forall (λ t, has_char "-" t = false) (task_names a) →
  evaluate a fs prefix = Ok st →
  length (passes st) = length (task_names a)
  ∧ ∀ (i : nat) p, passes st !! i = Some p →
      task_names a !! i = Some (pass_task p)
      ∧ num_label_list a !! i = Some (pass_num_labels p).
Proof.
  intros Hnd Hhyphen Hev. unfold RunGlue.evaluate in Hev.
  apply evaluate_tasks_num_labels in Hev as (new & Hnew & Hall).
  cbn [passes app] in Hnew. rewrite Hnew. split.
  - symmetry. by eapply Forall2_length.
  - intros i p Hp.
    destruct (Forall2_lookup_r _ _ _ _ _ Hall Hp) as (t & Ht & <- & pos & Hpos & Hnl).
    split; [done|].
    rewrite remove_all_without_hyphen in Hpos
      by (eapply (proj1 (Forall_lookup _ _) Hhyphen); done).
    rewrite (list_index_NoDup _ _ i Hnd Ht) in Hpos. injection Hpos as <-.
    by apply index_nat_inv.
Qed.

End EvaluateLabels.

(** X22 for the evaluation of MNLI and RTE. *)
Lemma evaluate_label_counts_witness :
  ∃ st, evaluate example_processors example_output_modes example_convert example_metrics
          eval_only_args ∅ "" = Ok st
        ∧ length (passes st) = 2%nat.
Proof.
  destruct (evaluate example_processors example_output_modes example_convert example_metrics
              eval_only_args ∅ "") as [st|e] eqn:Hev.
  - exists st. split; [reflexivity|].
    apply (proj1 (evaluate_label_counts example_processors example_output_modes
                    example_convert example_metrics eval_only_args ∅ "" st
                    ltac:(repeat constructor; set_solver)
                    ltac:(repeat constructor) Hev)).
  - vm_compute in Hev. discriminate.
Defined.
